(** * Counterfactual regret minimisation engine: a shallow embedding

    The development follows [src/__init__.py] (the engine together with its
    tree walker) and [src/cfr.py] (the same engine with the tree walker left
    as a stub).  The classes [InfoSet] and [CFR] become records, their
    methods functions over those records.

    Modelling conventions.
    - A Python [float] (and the [int] literals mixed with them) is an exact
      rational of [Q]; equalities between computed numbers are therefore
      stated with [==] where rounding would matter for a machine float.
    - A [Dict[Action, float]] is an insertion-ordered association list; the
      order is the order in which Python iterates the dictionary.
    - A raised exception is a value of [result]; a method that mutates its
      object returns the object as it is when the method exits, also when it
      exits by raising.
    - Objects shared through references (the [InfoSet]s held by the store)
      live in a heap indexed by object identity.
    - A dictionary is held by value.  [load_dict] stores the very
      dictionary objects of the saved dictionary, and [to_dict] hands out
      those of the object, so after [J.load_dict(I.to_dict())] the two
      objects share them; that sharing is not represented.  Statements
      about stores are therefore made for stores whose objects each own
      their dictionaries, as the objects built by [InfoSet.__init__]
      do. *)

From Stdlib Require Import QArith Qminmax Lqa Lia ZArith List String.
From stdpp Require Import gmap strings list.
Import ListNotations.

Local Open Scope Q_scope.

(** ** Python values and exceptions *)

(** [Player = NewType('Player', int)] *)
Definition Player := Z.
(** [Action = NewType('Action', str)] *)
Definition Action := string.

Inductive exn :=
| KeyError (k : string)
| TypeError
| AttributeError
| ZeroDivisionError.

Inductive result (A : Type) :=
| Ok (a : A)
| Raise (e : exn).
Arguments Ok {A} a.
Arguments Raise {A} e.

(** Sequencing: the first exception raised ends the computation. *)
#[global] Instance result_ret : MRet result := @Ok.
#[global] Instance result_bind : MBind result := fun A B k r =>
  match r with
  | Ok a => k a
  | Raise e => Raise e
  end.

(** [x > y] on numbers. *)
Definition py_gt (x y : Q) : bool := negb (Qle_bool x y).

(** [max(r, 0)]: the first argument is kept unless the second is greater. *)
Definition py_max (x y : Q) : Q := if py_gt y x then y else x.

(** [x / y]: true division, raising on a zero divisor. *)
Definition py_div (x y : Q) : result Q :=
  if Qeq_bool y 0 then Raise ZeroDivisionError else Ok (x / y).

(** [sum(xs)]: starts from [0] and adds from the left. *)
Definition py_sum (xs : list Q) : Q := fold_left Qplus xs 0.

(** [len(...)] as a number. *)
Definition py_len {A} (xs : list A) : Q := inject_Z (Z.of_nat (length xs)).

(** ** Dictionaries keyed by actions *)

Definition dict := list (Action * Q).

Fixpoint dict_get (d : dict) (a : Action) : option Q :=
  match d with
  | [] => None
  | (k, x) :: d' => if String.eqb k a then Some x else dict_get d' a
  end.

(** [d[a] = x]: an existing key keeps its position, a new key is appended. *)
Fixpoint dict_set (d : dict) (a : Action) (x : Q) : dict :=
  match d with
  | [] => [(a, x)]
  | (k, y) :: d' =>
      if String.eqb k a then (k, x) :: d' else (k, y) :: dict_set d' a x
  end.

(** [d[a]] *)
Definition dict_getitem (d : dict) (a : Action) : result Q :=
  match dict_get d a with
  | Some x => Ok x
  | None => Raise (KeyError a)
  end.

(** [d.get(a, default)] *)
Definition dict_get_default (d : dict) (a : Action) (default : Q) : Q :=
  match dict_get d a with
  | Some x => x
  | None => default
  end.

(** [d(a)]: a dictionary is not callable. *)
Definition dict_call (d : dict) (a : Action) : result Q := Raise TypeError.

Definition dict_values (d : dict) : list Q := map snd d.
Definition dict_keys (d : dict) : list Action := map fst d.

(** [{a: f(a) for a in xs}] *)
Definition dict_of_keys (f : Action -> Q) (xs : list Action) : dict :=
  fold_left (fun acc a => dict_set acc a (f a)) xs [].

(** [{a: f(a, r) for a, r in d.items()}]: the expression [f] is evaluated
    once per entry, in order, and the first exception aborts the
    comprehension.  The keys of [d] are kept as they are. *)
Fixpoint dict_comprehension (f : Action -> Q -> result Q) (d : dict)
  : result dict :=
  match d with
  | [] => Ok []
  | (a, r) :: d' =>
      x ← f a r;
      rest ← dict_comprehension f d';
      Ok ((a, x) :: rest)
  end.

(** ** Information sets *)

(** The abstract method [actions()] of a concrete information set class is
    the field [actions]. *)
Record InfoSet := mkInfoSet {
  key : string;
  actions : list Action;
  strategy : dict;
  regret : dict;
  cumulative_strategy : dict
}.

Definition set_strategy (I : InfoSet) (s : dict) : InfoSet :=
  mkInfoSet (key I) (actions I) s (regret I) (cumulative_strategy I).
Definition set_regret (I : InfoSet) (r : dict) : InfoSet :=
  mkInfoSet (key I) (actions I) (strategy I) r (cumulative_strategy I).
Definition set_cumulative_strategy (I : InfoSet) (c : dict) : InfoSet :=
  mkInfoSet (key I) (actions I) (strategy I) (regret I) c.

(** [InfoSet.calculate_strategy] *)
Definition calculate_strategy (I : InfoSet) : result InfoSet :=
  regret0 ← dict_comprehension (fun a r => Ok (py_max r 0)) (regret I);
  let regret_sum := py_sum (dict_values regret0) in
  if py_gt regret_sum 0 then
    s ← dict_comprehension (fun a r => py_div r regret_sum) regret0;
    Ok (set_strategy I s)
  else
    let count := py_len (dict_keys (regret I)) in
    s ← dict_comprehension (fun a r => py_div 1 count) regret0;
    Ok (set_strategy I s).

(** [InfoSet.get_average_strategy] *)
Definition get_average_strategy (I : InfoSet) : result dict :=
  let cum_strategy :=
    dict_of_keys (fun a => dict_get_default (cumulative_strategy I) a 0)
                 (actions I) in
  let strategy_sum := py_sum (dict_values cum_strategy) in
  if py_gt strategy_sum 0 then
    dict_comprehension (fun a s => py_div s strategy_sum) cum_strategy
  else
    let count := py_len (dict_keys cum_strategy) in
    dict_comprehension (fun a r => py_div 1 count) cum_strategy.

(** [InfoSet.__init__] for a class whose [actions()] is [acts]. *)
Definition InfoSet_init (k : string) (acts : list Action) : result InfoSet :=
  let regret0 := dict_of_keys (fun _ => 0) acts in
  let cum0 := dict_of_keys (fun _ => 0) acts in
  calculate_strategy (mkInfoSet k acts [] regret0 cum0).


(** *** Saving and loading *)

(** The dictionary exchanged by [to_dict] and [load_dict]: each of its three
    string keys is present or absent; the entries hold values of the types
    the class declares for the fields. *)
Record SavedDict := mkSavedDict {
  d_key : option string;
  d_regret : option dict;
  d_average_strategy : option dict
}.

(** [InfoSet.to_dict] *)
Definition to_dict (I : InfoSet) : SavedDict :=
  {| d_key := Some (key I);
     d_regret := Some (regret I);
     d_average_strategy := Some (cumulative_strategy I) |}.

(** [InfoSet.load_dict]: the assignments take effect one after the other,
    so the object returned with a raised [KeyError] holds those made before
    it. *)
Definition load_dict (I : InfoSet) (data : SavedDict) : result unit * InfoSet :=
  match d_regret data with
  | None => (Raise (KeyError "regret"), I)
  | Some r =>
      let I1 := set_regret I r in
      match d_average_strategy data with
      | None => (Raise (KeyError "average_strategy"), I1)
      | Some c =>
          let I2 := set_cumulative_strategy I1 c in
          match calculate_strategy I2 with
          | Ok I3 => (Ok tt, I3)
          | Raise e => (Raise e, I2)
          end
      end
  end.

(** ** The game interface *)

(** The methods of class [History] that a game overrides.  [add] is
    [__add__]; [new_info_set] returns the contents of the object it
    builds. *)
Class History (H : Type) := {
  is_terminal : H -> bool;
  terminal_utility : H -> Player -> Q;
  player : H -> Player;
  is_chance : H -> bool;
  sample_chance : H -> Action;
  add : H -> Action -> H;
  info_set_key : H -> string;
  new_info_set : H -> result InfoSet
}.

(** ** The engine *)

(** The part of a [CFR] object the walker works on: the dictionary
    [info_sets], from keys to [InfoSet] objects.  An object is known by its
    identity, an index into [objects], the [InfoSet]s allocated so far. *)
Record CFR := mkCFR {
  info_sets : gmap string nat;
  objects : list InfoSet
}.

(** [CFR.__init__]: [self.info_sets = {}] *)
Definition CFR_init : CFR := mkCFR ∅ [].

(** Computations of the engine: they read and update the [CFR] state and
    end with a value or an exception.  [None] means that the model has no
    answer: the recursion budget is used up, or an object identity that was
    never allocated is dereferenced. *)
Definition M (A : Type) : Type := CFR -> option (result A * CFR).

#[global] Instance M_ret : MRet M := fun A a s => Some (Ok a, s).
#[global] Instance M_bind : MBind M := fun A B k m s =>
  match m s with
  | None => None
  | Some (Ok a, s') => k a s'
  | Some (Raise e, s') => Some (Raise e, s')
  end.

Definition lift {A} (r : result A) : M A := fun s => Some (r, s).

Definition read_obj (I : nat) : M InfoSet := fun s =>
  match objects s !! I with
  | Some o => Some (Ok o, s)
  | None => None
  end.

Definition write_obj (I : nat) (o : InfoSet) : M unit := fun s =>
  Some (Ok tt, mkCFR (info_sets s) (<[I := o]> (objects s))).

(** [I.field[a]] *)
Definition obj_getitem (I : nat) (field : InfoSet -> dict) (a : Action)
  : M Q :=
  o ← read_obj I; lift (dict_getitem (field o) a).

(** [for x in xs: body], threading the local variables [st]. *)
Fixpoint for_each {X St} (xs : list X) (body : X -> St -> M St) (st : St)
  : M St :=
  match xs with
  | [] => mret st
  | x :: xs' => st' ← body x st; for_each xs' body st'
  end.

(** The first argument of [walk_tree]: a history, or the bound method
    [h.sample_chance] that the chance branch passes on uncalled. *)
Inductive walk_arg (H : Type) :=
| AHistory (h : H)
| ASampleChanceMethod (h : H).
Arguments AHistory {H} h.
Arguments ASampleChanceMethod {H} h.

Section Engine.
Context {H : Type} `{History H}.

(** [CFR._get_info_set] *)
Definition _get_info_set (h : H) : M nat := fun s =>
  let k := info_set_key h in
  match info_sets s !! k with
  | Some ref => Some (Ok ref, s)
  | None =>
      match new_info_set h with
      | Raise e => Some (Raise e, s)
      | Ok o =>
          let ref := length (objects s) in
          Some (Ok ref, mkCFR (<[k := ref]> (info_sets s)) (objects s ++ [o]))
      end
  end.

(** [CFR.walk_tree] of [src/__init__.py] *)
Fixpoint walk_tree (fuel : nat) (h : walk_arg H) (i : Player)
    (pi_i pi_neg_i : Q) : M Q :=
  match fuel with
  | O => fun _ => None
  | S fuel' =>
    match h with
    | ASampleChanceMethod _ =>
        (* a method object has no attribute [is_terminal] *)
        lift (Raise AttributeError)
    | AHistory h =>
      if is_terminal h then
        mret (terminal_utility h i)
      else if is_chance h then
        walk_tree fuel' (ASampleChanceMethod h) i pi_i pi_neg_i
      else
        I ← _get_info_set h;
        acts ← (o ← read_obj I; mret (actions o));
        '(v, v_a) ← for_each acts (fun a '(v, v_a) =>
          v_a ←
            (if (player h =? 1)%Z then
               c ← obj_getitem I cumulative_strategy a;
               x ← walk_tree fuel' (AHistory (add h a)) i (pi_i * c) pi_neg_i;
               mret (dict_set v_a a x)
             else if (player h =? 2)%Z then
               c ← obj_getitem I cumulative_strategy a;
               x ← walk_tree fuel' (AHistory (add h a)) i pi_i (pi_neg_i * c);
               mret (dict_set v_a a x)
             else mret v_a);
          x ← lift (dict_getitem v_a a);
          c ← obj_getitem I cumulative_strategy a;
          mret (v + x * c, v_a)) (0, []);
        _ ← (if (player h =? i)%Z then
               acts ← (o ← read_obj I; mret (actions o));
               _ ← for_each acts (fun a (_ : unit) =>
                 o ← read_obj I;
                 r ← lift (dict_getitem (regret o) a);
                 x ← lift (dict_getitem v_a a);
                 _ ← write_obj I (set_regret o (dict_set (regret o) a
                                                (r + pi_neg_i * (x - v))));
                 o ← read_obj I;
                 s ← lift (dict_getitem (strategy o) a);
                 c ← lift (dict_call (cumulative_strategy o) a);
                 write_obj I (set_strategy o (dict_set (strategy o) a
                                                (s + pi_i * c)))) tt;
               o ← read_obj I;
               o' ← lift (calculate_strategy o);
               write_obj I o'
             else mret tt);
        mret v
    end
  end.
End Engine.

(** [CFR.walk_tree] of [src/cfr.py]: its body is [...], so it returns
    [None] and leaves the store alone. *)
Definition walk_tree_stub {H : Type} (h : H) (i : Player) (pi_1 pi_2 : Q)
  : M unit := mret tt.

(** ** Concrete games

    A finite game given by its tree; a history is the subtree that remains
    to be played. *)
#[local] Set Warnings "-register-all".
Inductive tree :=
| Terminal (u : Player -> Q)
| ChanceNode (sampled : Action) (children : list (Action * tree))
| Decision (p : Player) (k : string) (children : list (Action * tree)).
#[local] Set Warnings "register-all".

Fixpoint child (cs : list (Action * tree)) (a : Action) (default : tree)
  : tree :=
  match cs with
  | [] => default
  | (b, t) :: cs' => if String.eqb b a then t else child cs' a default
  end.

#[global] Instance tree_history : History tree := {|
  is_terminal t := match t with Terminal _ => true | _ => false end;
  terminal_utility t i := match t with Terminal u => u i | _ => 0 end;
  player t := match t with Decision p _ _ => p | _ => (-1)%Z end;
  is_chance t := match t with ChanceNode _ _ => true | _ => false end;
  sample_chance t := match t with ChanceNode a _ => a | _ => ""%string end;
  add t a :=
    match t with
    | Terminal _ => t
    | ChanceNode _ cs | Decision _ _ cs => child cs a t
    end;
  info_set_key t := match t with Decision _ k _ => k | _ => ""%string end;
  new_info_set t :=
    match t with
    | Decision _ k cs => InfoSet_init k (map fst cs)
    | _ => InfoSet_init "" []
    end
|}.

(** Every terminal pays the same amount to every player. *)
Definition pays (q : Q) : tree := Terminal (fun _ => q).

(** Player 2 chooses between [l] and [r]; the game ends. *)
Definition game_one_node : tree :=
  Decision 2%Z "P2" [("l"%string, pays 1); ("r"%string, pays 3)].

(** Player 2 chooses [l] or [r], then player 1, who does not see that
    choice, chooses [x] or [y]. *)
Definition game_two_levels : tree :=
  let second := Decision 1%Z "P1"
                  [("x"%string, pays 1); ("y"%string, pays (-1))] in
  Decision 2%Z "P2" [("l"%string, second); ("r"%string, second)].

(** Player 1 chooses between [x] and [y]; the game ends. *)
Definition game_own_node : tree :=
  Decision 1%Z "P1" [("x"%string, pays 1); ("y"%string, pays (-1))].

(** A card is dealt, then player 1 chooses. *)
Definition game_chance : tree :=
  ChanceNode "K" [("K"%string, game_own_node); ("Q"%string, game_own_node)].

(** The information set of player 2 in [game_one_node] and
    [game_two_levels], as [new_info_set] builds it. *)
Definition fresh_P2 : InfoSet :=
  {| key := "P2"; actions := ["l"; "r"]%string;
     strategy := [("l"%string, 1 # 2); ("r"%string, 1 # 2)];
     regret := [("l"%string, 0); ("r"%string, 0)];
     cumulative_strategy := [("l"%string, 0); ("r"%string, 0)] |}.

(** The information set of player 1, as [new_info_set] builds it. *)
Definition fresh_P1 : InfoSet :=
  {| key := "P1"; actions := ["x"; "y"]%string;
     strategy := [("x"%string, 1 # 2); ("y"%string, 1 # 2)];
     regret := [("x"%string, 0); ("y"%string, 0)];
     cumulative_strategy := [("x"%string, 0); ("y"%string, 0)] |}.

(** An information set with one positive and one negative regret; its
    strategy is the one regret matching computes, [3 / 3] and [0 / 3]. *)
Definition sample_info_set : InfoSet :=
  {| key := "S"; actions := ["a"; "b"]%string;
     strategy := [("a"%string, 3 # 3); ("b"%string, 0 # 3)];
     regret := [("a"%string, 3); ("b"%string, -1)];
     cumulative_strategy := [("a"%string, 1 # 2); ("b"%string, 3 # 2)] |}.

(** A saved dictionary without its ['average_strategy'] entry. *)
Definition sample_truncated : SavedDict :=
  {| d_key := Some "S"%string;
     d_regret := Some [("a"%string, 5); ("b"%string, 7)];
     d_average_strategy := None |}.

(** ** The rules as the specification words them *)

(** [positive(a) = max(regret[a], 0)] *)
Definition positive (r : Q) : Q := Qmax r 0.

(** The sum of a family of numbers. *)
Definition total (xs : list Q) : Q := fold_right Qplus 0 xs.

(** The uniform distribution [1 / |actions|] over the keys of [d]. *)
Definition uniform_over (d : dict) : dict :=
  map (fun kv => (fst kv, 1 / inject_Z (Z.of_nat (length d)))) d.

(** Section 4.2, [strategy_from_regret]. *)
Definition strategy_from_regret (regret : dict) : dict :=
  let S := total (map (fun kv => positive (snd kv)) regret) in
  if Qlt_le_dec 0 S then
    map (fun kv => (fst kv, positive (snd kv) / S)) regret
  else uniform_over regret.

(** Section 4.2, the average strategy of an information set with action
    set [acts] and accumulator [cum]. *)
Definition avg_strategy (acts : list Action) (cum : dict) : dict :=
  let mass := map (fun a => (a, dict_get_default cum a 0)) acts in
  let S := total (map snd mass) in
  if Qlt_le_dec 0 S then map (fun kv => (fst kv, snd kv / S)) mass
  else uniform_over mass.

(** Two dictionaries with the same keys in the same order and equal
    numbers under them. *)
Definition dict_eq (d1 d2 : dict) : Prop :=
  Forall2 (fun x y => fst x = fst y /\ snd x == snd y) d1 d2.

(** A probability distribution over the keys of [d]. *)
Definition distribution (d : dict) : Prop :=
  Forall (fun x => 0 <= x) (dict_values d) /\ py_sum (dict_values d) == 1.

(** ** Closed forms of the two computations *)

Definition dict_map (g : Q -> Q) (d : dict) : dict :=
  map (fun kv => (fst kv, g (snd kv))) d.

(** What [calculate_strategy] stores in [strategy]. *)
Definition regret_matching (regret : dict) : dict :=
  let regret0 := dict_map (fun r => py_max r 0) regret in
  let regret_sum := py_sum (dict_values regret0) in
  if py_gt regret_sum 0 then dict_map (fun r => r / regret_sum) regret0
  else dict_map (fun _ => 1 / py_len (dict_keys regret)) regret0.

(** What [get_average_strategy] returns. *)
Definition average_strategy (I : InfoSet) : dict :=
  let cum_strategy :=
    dict_of_keys (fun a => dict_get_default (cumulative_strategy I) a 0)
                 (actions I) in
  let strategy_sum := py_sum (dict_values cum_strategy) in
  if py_gt strategy_sum 0 then dict_map (fun s => s / strategy_sum) cum_strategy
  else dict_map (fun _ => 1 / py_len (dict_keys cum_strategy)) cum_strategy.

(** The derived field is current: recomputing the strategy changes
    nothing. *)
Definition up_to_date (I : InfoSet) : Prop := calculate_strategy I = Ok I.

(** An information set with no action, as [InfoSet_init] builds it. *)
Definition empty_info_set : InfoSet := mkInfoSet "E" [] [] [] [].

(** ** Invariants of the store *)

(** Every key is bound to an allocated object, two keys are never bound to
    the same object, and every allocated object is bound to a key. *)
Definition one_instance_per_key (s : CFR) : Prop :=
  (forall k ref,
      info_sets s !! k = Some ref -> (ref < length (objects s))%nat) /\
  (forall k1 k2 ref,
      info_sets s !! k1 = Some ref ->
      info_sets s !! k2 = Some ref -> k1 = k2) /\
  (forall ref, (ref < length (objects s))%nat ->
               exists k, info_sets s !! k = Some ref).

(** A key bound in [s] is bound to the same object in [s']. *)
Definition bindings_kept (s s' : CFR) : Prop :=
  forall k ref, info_sets s !! k = Some ref -> info_sets s' !! k = Some ref.

Definition stable (s s' : CFR) : Prop :=
  bindings_kept s s' /\ (one_instance_per_key s -> one_instance_per_key s').

(** Every run of the computation [m] relates the state it starts from to
    the state it ends in, however it ends. *)
Definition keeps (R : CFR -> CFR -> Prop) {A} (m : M A) : Prop :=
  forall s r s', m s = Some (r, s') -> R s s'.

(** One use of the store during a training run: a lookup or a walk. *)
Inductive step {H} `{History H} : CFR -> CFR -> Prop :=
| step_lookup (h : H) s r s' :
    _get_info_set h s = Some (r, s') -> step s s'
| step_walk fuel (h : walk_arg H) i pi_i pi_neg_i s r s' :
    walk_tree fuel h i pi_i pi_neg_i s = Some (r, s') -> step s s'.

(** ** Further parts of the source *)

(** An information set whose cumulative strategy holds only zeros, as
    [InfoSet.__init__] leaves it. *)
Definition zero_cum (I : InfoSet) : Prop :=
  Forall (fun x => x == 0) (dict_values (cumulative_strategy I)).

(** What the walker leaves alone in an object. *)
Definition frame (o o' : InfoSet) : Prop :=
  key o' = key o /\ actions o' = actions o /\
  cumulative_strategy o' = cumulative_strategy o.

(** One call [tracker.add({...})] of [InfoSetTracker.__call__]: the three
    named values for the action [a], or the [KeyError] of the first
    subscript that fails. *)
Definition tracker_entry (I : InfoSet) (avg : dict) (a : Action)
  : result (list (string * Q)) :=
  s ← dict_getitem (strategy I) a;
  v ← dict_getitem avg a;
  r ← dict_getitem (regret I) a;
  Ok [("strategy." ++ key I ++ "." ++ a, s);
      ("average_strategy." ++ key I ++ "." ++ a, v);
      ("regret." ++ key I ++ "." ++ a, r)]%string.

(** [for a in I.actions(): tracker.add({...})]: the dictionaries handed to
    [tracker.add] so far, and how the loop ends. *)
Fixpoint track_actions (I : InfoSet) (avg : dict) (acts : list Action)
  : list (list (string * Q)) * result unit :=
  match acts with
  | [] => ([], Ok tt)
  | a :: acts' =>
      match tracker_entry I avg a with
      | Raise e => ([], Raise e)
      | Ok d =>
          let '(out, r) := track_actions I avg acts' in (d :: out, r)
      end
  end.

(** The body of the loop of [InfoSetTracker.__call__] for one information
    set. *)
Definition track_info_set (I : InfoSet)
  : list (list (string * Q)) * result unit :=
  match get_average_strategy I with
  | Raise e => ([], Raise e)
  | Ok avg => track_actions I avg (actions I)
  end.

(** [InfoSetTracker.__call__] on the values of [info_sets], in the order
    Python iterates them. *)
Fixpoint InfoSetTracker_call (values : list InfoSet)
  : list (list (string * Q)) * result unit :=
  match values with
  | [] => ([], Ok tt)
  | info_set :: values' =>
      match track_info_set info_set with
      | (out, Raise e) => (out, Raise e)
      | (out, Ok _) =>
          let '(out', r) := InfoSetTracker_call values' in (out ++ out', r)
      end
  end.

(** The action [a] has an entry in [strategy] and in [regret]. *)
Definition covered (I : InfoSet) (a : Action) : Prop :=
  is_Some (dict_get (strategy I) a) /\ is_Some (dict_get (regret I) a).

(** An information set whose [regret] and [strategy] have an entry for
    every action. *)
Definition covers_actions (I : InfoSet) : Prop :=
  Forall (covered I) (actions I).

(** *** The training loop *)

(** Lines 307 to 314 of [iterate], between two rounds of walks: the
    tracker and the checkpoint of the experiment library read the
    information sets and may raise; they hold no reference through which
    the store could change.  [observe t s] is how they end in round [t] on
    the store [s]. *)
Definition observe_step (observe : nat -> CFR -> result unit) (t : nat)
  : M unit :=
  fun s => Some (observe t s, s).

(** [CFR.iterate], for [epochs] rounds ([monit.iterate] runs through
    [range(self.epochs)]) of one walk per player, each from the history
    [create_new_history()] with both reach probabilities 1. *)
Definition iterate {H : Type} `{History H}
    (observe : nat -> CFR -> result unit) (fuel : nat)
    (create_new_history : H) (epochs n_players : nat) : M unit :=
  _ ← for_each (seq 0 epochs) (fun t (_ : unit) =>
        _ ← for_each (seq 0 n_players) (fun i (_ : unit) =>
              _ ← walk_tree fuel (AHistory create_new_history)
                            (Z.of_nat i) 1 1;
              mret tt) tt;
        observe_step observe t) tt;
  mret tt.

(** Every object of the state has at least one action. *)
Definition all_have_actions (s : CFR) : Prop :=
  forall ref o, objects s !! ref = Some o -> actions o <> [].

(** *** More concrete games *)

(** The only decision belongs to player 0. *)
Definition game_player_0 : tree :=
  Decision 0%Z "P0" [("x"%string, pays 1); ("y"%string, pays 2)].

(** Player 1 is to move but has no action. *)
Definition game_no_action : tree := Decision 1%Z "E" [].

(** Player 2 calls heads or tails and the game ends; every information
    set this game builds has the two actions. *)
Inductive call_game :=
| CallRoot
| CallEnd (a : Action).

#[global] Instance call_history : History call_game := {|
  is_terminal g := match g with CallRoot => false | CallEnd _ => true end;
  terminal_utility g i :=
    match g with
    | CallEnd a => if String.eqb a "h" then 1 else -1
    | CallRoot => 0
    end;
  player g := 2%Z;
  is_chance g := false;
  sample_chance g := ""%string;
  add g a := CallEnd a;
  info_set_key g := "call"%string;
  new_info_set g := InfoSet_init "call" ["h"; "t"]%string
|}.

(** A tracker and a checkpoint that never fail. *)
Definition quiet (t : nat) (s : CFR) : result unit := Ok tt.

(** The store after player 1's information set has been created. *)
Definition store_P1 : CFR := mkCFR {["P1"%string := 0%nat]} [fresh_P1].

(** The information set of player 0 in [game_player_0], as
    [new_info_set] builds it. *)
Definition fresh_P0 : InfoSet :=
  {| key := "P0"; actions := ["x"; "y"]%string;
     strategy := [("x"%string, 1 # 2); ("y"%string, 1 # 2)];
     regret := [("x"%string, 0); ("y"%string, 0)];
     cumulative_strategy := [("x"%string, 0); ("y"%string, 0)] |}.

(** A saved dictionary whose key is not the key of [sample_info_set]. *)
Definition sample_saved : SavedDict :=
  {| d_key := Some "other"%string;
     d_regret := Some [("a"%string, 5); ("b"%string, 7)];
     d_average_strategy := Some [("a"%string, 1); ("b"%string, 0)] |}.

(** Lines 285 to 290 of [walk_tree], for the information set [ref], the
    child values [v_a] and the node value [v]. *)
Definition update_block (ref : nat) (v_a : dict) (v pi_i pi_neg_i : Q)
  : M unit :=
  acts ← (o ← read_obj ref; mret (actions o));
  _ ← for_each acts (fun a (_ : unit) =>
        o ← read_obj ref;
        r ← lift (dict_getitem (regret o) a);
        x ← lift (dict_getitem v_a a);
        _ ← write_obj ref (set_regret o (dict_set (regret o) a
                                           (r + pi_neg_i * (x - v))));
        o ← read_obj ref;
        s ← lift (dict_getitem (strategy o) a);
        c ← lift (dict_call (cumulative_strategy o) a);
        write_obj ref (set_strategy o (dict_set (strategy o) a
                                         (s + pi_i * c)))) tt;
  o ← read_obj ref;
  o' ← lift (calculate_strategy o);
  write_obj ref o'.

(** What a walk can change in an object [o] that has actions: the regret
    of its first action, and nothing else. *)
Definition only_first_regret (o o' : InfoSet) : Prop :=
  frame o o' /\
  forall a rest,
    actions o = a :: rest ->
    strategy o' = strategy o /\
    forall b, b <> a -> dict_get (regret o') b = dict_get (regret o) b.

(** The objects of [s0] are still in [s], changed at most in the regret
    of their first action. *)
Definition touched (s0 s : CFR) : Prop :=
  (length (objects s0) <= length (objects s))%nat /\
  forall ref o0, objects s0 !! ref = Some o0 ->
                 exists o, objects s !! ref = Some o /\
                           only_first_regret o0 o.

(** Every object of the state is as some call of [new_info_set] built it,
    but for the regret of its first action. *)
Definition all_pristine {H} `{History H} (s : CFR) : Prop :=
  forall ref o,
    objects s !! ref = Some o ->
    exists (h : H) o_init,
      new_info_set h = Ok o_init /\ only_first_regret o_init o.

(** *** Reasoning about engine computations *)

(** From a state that satisfies [Inv], the computation [m] ends, if it
    ends, in a state that satisfies [Inv], whether it returns or raises,
    and a value it returns satisfies [Q]. *)
Definition triple (Inv : CFR -> Prop) {A} (m : M A) (Q : A -> Prop) : Prop :=
  forall s r s',
    Inv s -> m s = Some (r, s') -> Inv s' /\ forall a, r = Ok a -> Q a.

(** What is known of a value returned by [walk_tree]: from a history that
    is not terminal it satisfies [val]; from a method object nothing is
    ever returned. *)
Definition walk_post {H} `{History H} (val : Q -> Prop) (arg : walk_arg H)
    (v : Q) : Prop :=
  match arg with
  | AHistory h => is_terminal h = false -> val v
  | ASampleChanceMethod _ => False
  end.

(** The objects of [s0] are still in [s], with their key, their actions
    and their cumulative strategy. *)
Definition frames (s0 s : CFR) : Prop :=
  (length (objects s0) <= length (objects s))%nat /\
  forall ref o0, objects s0 !! ref = Some o0 ->
                 exists o, objects s !! ref = Some o /\ frame o0 o.

(** Every object of the state has an all-zero cumulative strategy. *)
Definition all_zero_cum (s : CFR) : Prop :=
  forall ref o, objects s !! ref = Some o -> zero_cum o.

(** *** Objects on which a claim of the specification fails *)

(** An information set whose cumulative strategy, as [load_dict] accepts
    it from a saved dictionary, has a negative entry. *)
Definition negative_info_set : InfoSet :=
  {| key := "N"; actions := ["a"; "b"]%string;
     strategy := [("a"%string, 1 # 2); ("b"%string, 1 # 2)];
     regret := [("a"%string, 0); ("b"%string, 0)];
     cumulative_strategy := [("a"%string, -1); ("b"%string, 3)] |}.

(** Player 1's information set as the walk of [game_own_node] leaves it:
    the regret of [x] is updated, the strategy is not recomputed. *)
Definition stale_P1 : InfoSet :=
  {| key := "P1"; actions := ["x"; "y"]%string;
     strategy := [("x"%string, 1 # 2); ("y"%string, 1 # 2)];
     regret := [("x"%string, 1); ("y"%string, 0)];
     cumulative_strategy := [("x"%string, 0); ("y"%string, 0)] |}.

(** * Properties *)

(** ** Arithmetic of the Python operators *)

Lemma py_gt_spec (x y : Q) : py_gt x y = true <-> y < x.
Proof.
  unfold py_gt. rewrite negb_true_iff.
  split; intros Hxy.
  - apply Qnot_le_lt. intros Hle. apply Qle_bool_iff in Hle. congruence.
  - destruct (Qle_bool x y) eqn:E; [|reflexivity].
    apply Qle_bool_iff in E. exfalso. apply (Qlt_not_le _ _ Hxy E).
Qed.

Lemma py_gt_false (x y : Q) : py_gt x y = false <-> x <= y.
Proof.
  unfold py_gt. rewrite negb_false_iff. apply Qle_bool_iff.
Qed.

Lemma py_max_positive (r : Q) : py_max r 0 = positive r.
Proof.
  unfold py_max, positive, py_gt, Qmax, GenericMinMax.gmax, Qle_bool, Qcompare.
  simpl. rewrite Z.mul_1_r. unfold Z.leb.
  destruct r as [n d]; simpl. destruct n; reflexivity.
Qed.

Lemma positive_nonneg (r : Q) : 0 <= positive r.
Proof. apply Q.le_max_r. Qed.

Lemma py_div_ok (x y : Q) : ~ y == 0 -> py_div x y = Ok (x / y).
Proof.
  intros Hy. unfold py_div.
  destruct (Qeq_bool y 0) eqn:E; [|reflexivity].
  apply Qeq_bool_iff in E. contradiction.
Qed.

Lemma fold_left_Qplus (xs : list Q) (a : Q) :
  fold_left Qplus xs a == a + total xs.
Proof.
  revert a. induction xs as [|x xs IH]; intros a; simpl.
  - ring.
  - rewrite IH. ring.
Qed.

Lemma py_sum_total (xs : list Q) : py_sum xs == total xs.
Proof. unfold py_sum. rewrite fold_left_Qplus. ring. Qed.

Lemma total_nonneg (xs : list Q) :
  Forall (fun x => 0 <= x) xs -> 0 <= total xs.
Proof.
  induction 1 as [|x xs Hx _ IH]; simpl.
  - apply Qle_refl.
  - replace 0 with (0 + 0) by reflexivity. apply Qplus_le_compat; assumption.
Qed.

Lemma total_scaled (f : Q -> Q) (c : Q) (xs : list Q) :
  total (map (fun x => f x / c) xs) == total (map f xs) / c.
Proof.
  induction xs as [|x xs IH]; simpl.
  - unfold Qdiv. ring.
  - rewrite IH. unfold Qdiv. ring.
Qed.

Lemma total_constant {A} (c : Q) (xs : list A) :
  total (map (fun _ => c) xs) == inject_Z (Z.of_nat (length xs)) * c.
Proof.
  induction xs as [|x xs IH].
  - simpl. ring.
  - cbn [map total fold_right length]. fold (total (map (fun _ : A => c) xs)).
    rewrite IH, Nat2Z.inj_succ. unfold Z.succ. rewrite inject_Z_plus. ring.
Qed.

Lemma length_nonzero {A} (xs : list A) :
  xs <> [] -> ~ inject_Z (Z.of_nat (length xs)) == 0.
Proof.
  intros Hne Heq. destruct xs as [|x xs]; [congruence|].
  assert (Hlt : 0 < inject_Z (Z.of_nat (length (x :: xs)))).
  { replace 0 with (inject_Z 0) by reflexivity. rewrite <- Zlt_Qlt.
    simpl length. lia. }
  rewrite Heq in Hlt. apply (Qlt_irrefl 0 Hlt).
Qed.

(** ** Comprehensions never fail on the divisions the code makes *)

Lemma comprehension_ok (g : Q -> Q) (d : dict) :
  dict_comprehension (fun _ r => Ok (g r)) d = Ok (dict_map g d).
Proof.
  induction d as [|[a r] d IH]; [reflexivity|].
  cbn. rewrite IH. reflexivity.
Qed.

Lemma comprehension_div (g : Q -> Q) (c : Q) (d : dict) :
  ~ c == 0 ->
  dict_comprehension (fun _ r => py_div (g r) c) d
  = Ok (dict_map (fun r => g r / c) d).
Proof.
  intros Hc. induction d as [|[a r] d IH]; [reflexivity|].
  cbn. rewrite (py_div_ok _ _ Hc). cbn. rewrite IH. reflexivity.
Qed.

Lemma comprehension_uniform (d : dict) (n : nat) :
  (d <> [] -> n <> O) ->
  dict_comprehension (fun _ _ => py_div 1 (inject_Z (Z.of_nat n))) d
  = Ok (dict_map (fun _ => 1 / inject_Z (Z.of_nat n)) d).
Proof.
  intros Hn. destruct d as [|kv d]; [reflexivity|].
  apply (comprehension_div (fun _ => 1)).
  intros Heq. assert (Hpos : n <> O) by (apply Hn; discriminate).
  assert (Hlt : 0 < inject_Z (Z.of_nat n)).
  { replace 0 with (inject_Z 0) by reflexivity. rewrite <- Zlt_Qlt. lia. }
  rewrite Heq in Hlt. apply (Qlt_irrefl 0 Hlt).
Qed.

Lemma positive_sum_nonzero (x : Q) : py_gt x 0 = true -> ~ x == 0.
Proof.
  intros Hgt Heq. apply py_gt_spec in Hgt. rewrite Heq in Hgt.
  apply (Qlt_irrefl 0 Hgt).
Qed.

Lemma dict_map_length (g : Q -> Q) (d : dict) :
  length (dict_map g d) = length d.
Proof. unfold dict_map. apply length_map. Qed.

Lemma dict_map_keys (g : Q -> Q) (d : dict) :
  dict_keys (dict_map g d) = dict_keys d.
Proof.
  unfold dict_keys, dict_map. rewrite map_map. reflexivity.
Qed.

Lemma dict_map_values (g : Q -> Q) (d : dict) :
  dict_values (dict_map g d) = map g (dict_values d).
Proof.
  unfold dict_values, dict_map. rewrite !map_map. reflexivity.
Qed.

(** [calculate_strategy] always returns, with [strategy] replaced. *)
Lemma calculate_strategy_ok (I : InfoSet) :
  calculate_strategy I = Ok (set_strategy I (regret_matching (regret I))).
Proof.
  unfold calculate_strategy, regret_matching.
  rewrite comprehension_ok. cbn.
  destruct (py_gt _ 0) eqn:Hgt.
  - rewrite (comprehension_div (fun r => r)); [reflexivity|].
    apply positive_sum_nonzero, Hgt.
  - unfold py_len. rewrite comprehension_uniform; [reflexivity|].
    intros Hne. unfold dict_keys. rewrite length_map.
    destruct (regret I); [|discriminate]. contradiction.
Qed.

(** [get_average_strategy] always returns. *)
Lemma get_average_strategy_ok (I : InfoSet) :
  get_average_strategy I = Ok (average_strategy I).
Proof.
  unfold get_average_strategy, average_strategy. cbn zeta.
  destruct (py_gt _ 0) eqn:Hgt.
  - apply (comprehension_div (fun r => r)), positive_sum_nonzero, Hgt.
  - unfold py_len. apply comprehension_uniform.
    intros Hne. unfold dict_keys. rewrite length_map.
    destruct (dict_of_keys _ _); [contradiction|discriminate].
Qed.

(** ** Normalised and uniform dictionaries are distributions *)

Lemma Forall2_map_pointwise {A B} (R : B -> B -> Prop) (f g : A -> B)
    (xs : list A) :
  (forall x, In x xs -> R (f x) (g x)) -> Forall2 R (map f xs) (map g xs).
Proof.
  induction xs as [|x xs IH]; intros Hfg; simpl; constructor.
  - apply Hfg. left. reflexivity.
  - apply IH. intros y Hy. apply Hfg. right. exact Hy.
Qed.

Lemma normalised_nonneg (d : dict) (S : Q) :
  Forall (fun x => 0 <= x) (dict_values d) ->
  0 < S ->
  Forall (fun x => 0 <= x) (dict_values (dict_map (fun r => r / S) d)).
Proof.
  intros Hnn Hpos. rewrite dict_map_values.
  apply List.Forall_forall. intros y Hy. apply in_map_iff in Hy.
  destruct Hy as [x [<- Hx]].
  rewrite List.Forall_forall in Hnn. specialize (Hnn x Hx).
  apply Qle_shift_div_l; [exact Hpos|]. rewrite Qmult_0_l. exact Hnn.
Qed.

Lemma normalised_sum (d : dict) (S : Q) :
  S == total (dict_values d) ->
  0 < S ->
  py_sum (dict_values (dict_map (fun r => r / S) d)) == 1.
Proof.
  intros HS Hpos. rewrite dict_map_values.
  rewrite py_sum_total, (total_scaled (fun r => r)), map_id, <- HS.
  field. intros Heq. rewrite Heq in Hpos. apply (Qlt_irrefl 0 Hpos).
Qed.

Lemma distribution_normalised (d : dict) (S : Q) :
  Forall (fun x => 0 <= x) (dict_values d) ->
  S == total (dict_values d) ->
  0 < S ->
  distribution (dict_map (fun r => r / S) d).
Proof.
  intros Hnn HS Hpos. split.
  - apply normalised_nonneg; assumption.
  - apply normalised_sum; assumption.
Qed.

Lemma distribution_uniform (d : dict) :
  d <> [] ->
  distribution (dict_map (fun _ => 1 / inject_Z (Z.of_nat (length d))) d).
Proof.
  intros Hne. pose proof (length_nonzero d Hne) as Hnz.
  assert (Hpos : 0 < inject_Z (Z.of_nat (length d))).
  { replace 0 with (inject_Z 0) by reflexivity. rewrite <- Zlt_Qlt.
    destruct d; [congruence|simpl length; lia]. }
  unfold distribution. rewrite dict_map_values. split.
  - apply List.Forall_forall. intros y Hy. apply in_map_iff in Hy.
    destruct Hy as [x [<- _]].
    apply Qle_shift_div_l; [exact Hpos|]. rewrite Qmult_0_l. discriminate.
  - rewrite py_sum_total, total_constant.
    unfold dict_values. rewrite length_map. field. exact Hnz.
Qed.

Lemma regret0_values (d : dict) :
  dict_values (dict_map (fun r => py_max r 0) d)
  = map (fun kv => positive (snd kv)) d.
Proof.
  unfold dict_values, dict_map. rewrite map_map. apply map_ext.
  intros [a r]. simpl. apply py_max_positive.
Qed.

Lemma regret0_nonneg (d : dict) :
  Forall (fun x => 0 <= x) (dict_values (dict_map (fun r => py_max r 0) d)).
Proof.
  rewrite regret0_values. apply List.Forall_forall. intros y Hy.
  apply in_map_iff in Hy. destruct Hy as [x [<- _]]. apply positive_nonneg.
Qed.

Lemma regret_matching_distribution (d : dict) :
  d <> [] -> distribution (regret_matching d).
Proof.
  intros Hne. unfold regret_matching. cbn zeta.
  destruct (py_gt _ 0) eqn:Hgt.
  - apply distribution_normalised.
    + apply regret0_nonneg.
    + apply py_sum_total.
    + apply py_gt_spec, Hgt.
  - unfold py_len, dict_keys. rewrite length_map.
    replace (length d) with (length (dict_map (fun r => py_max r 0) d))
      by apply dict_map_length.
    apply distribution_uniform.
    destruct d; [congruence|discriminate].
Qed.

Lemma regret_matching_refines (d : dict) :
  dict_eq (regret_matching d) (strategy_from_regret d).
Proof.
  unfold regret_matching, strategy_from_regret, dict_eq. cbn zeta.
  assert (Hsum : py_sum (dict_values (dict_map (fun r => py_max r 0) d))
                 == total (map (fun kv => positive (snd kv)) d)).
  { rewrite py_sum_total, regret0_values. reflexivity. }
  set (Sc := py_sum _) in *.
  destruct (py_gt Sc 0) eqn:Hgt; destruct (Qlt_le_dec 0 _) as [Hlt|Hle].
  - unfold dict_map. rewrite map_map.
    apply Forall2_map_pointwise. intros [a r] _. simpl. split; [reflexivity|].
    rewrite py_max_positive, Hsum. reflexivity.
  - apply py_gt_spec in Hgt. rewrite Hsum in Hgt.
    exfalso. apply (Qlt_not_le _ _ Hgt Hle).
  - apply py_gt_false in Hgt. rewrite Hsum in Hgt.
    exfalso. apply (Qlt_not_le _ _ Hlt Hgt).
  - unfold dict_map, uniform_over. rewrite map_map.
    apply Forall2_map_pointwise. intros [a r] _. simpl. split; [reflexivity|].
    unfold py_len, dict_keys. rewrite length_map. reflexivity.
Qed.

Lemma nonpositive_total (d : dict) :
  Forall (fun r => r <= 0) (dict_values d) ->
  total (map (fun kv => positive (snd kv)) d) == 0.
Proof.
  unfold dict_values. induction d as [|[a r] d IH]; intros Hall; simpl.
  - reflexivity.
  - inversion Hall as [|? ? Hr Hrest]; subst. simpl in Hr.
    rewrite (IH Hrest). unfold positive. rewrite (Q.max_r r 0 Hr). ring.
Qed.

Lemma strategy_from_nonpositive_regret (d : dict) :
  Forall (fun r => r <= 0) (dict_values d) ->
  strategy_from_regret d = uniform_over d.
Proof.
  intros Hall. unfold strategy_from_regret. cbn zeta.
  destruct (Qlt_le_dec 0 _) as [Hlt|Hle]; [|reflexivity].
  rewrite (nonpositive_total d Hall) in Hlt.
  exfalso. apply (Qlt_irrefl 0 Hlt).
Qed.

(** C5. For a regret map over a non-empty action set, [calculate_strategy]
    returns normally, touches only [strategy], and stores there the
    strategy of the regret-matching rule: [positive(a) / S] when the sum [S]
    of the positive parts is positive, the uniform value [1 / |actions|]
    otherwise (in particular when no regret is positive).  The stored
    values are non-negative and sum to 1. *)
Theorem calculate_strategy_regret_matching (I : InfoSet) :
  regret I <> [] ->
  exists I',
    calculate_strategy I = Ok I' /\
    key I' = key I /\ actions I' = actions I /\
    regret I' = regret I /\
    cumulative_strategy I' = cumulative_strategy I /\
    dict_eq (strategy I') (strategy_from_regret (regret I)) /\
    (Forall (fun r => r <= 0) (dict_values (regret I)) ->
     dict_eq (strategy I') (uniform_over (regret I))) /\
    distribution (strategy I').
Proof.
  intros Hne. exists (set_strategy I (regret_matching (regret I))).
  split; [apply calculate_strategy_ok|].
  repeat (split; [reflexivity|]). cbn [strategy set_strategy].
  split; [apply regret_matching_refines|].
  split; [|apply regret_matching_distribution, Hne].
  intros Hall. rewrite <- (strategy_from_nonpositive_regret _ Hall).
  apply regret_matching_refines.
Qed.

(** ** Dictionaries built from a list of keys *)

Lemma dict_set_fresh (d : dict) (a : Action) (x : Q) :
  ~ In a (dict_keys d) -> dict_set d a x = d ++ [(a, x)].
Proof.
  induction d as [|[k y] d IH]; intros Hfresh; simpl; [reflexivity|].
  destruct (String.eqb k a) eqn:E.
  - apply String.eqb_eq in E. exfalso. apply Hfresh. left. exact E.
  - rewrite IH; [reflexivity|]. intros Hin. apply Hfresh. right. exact Hin.
Qed.

Lemma dict_set_nonempty (d : dict) (a : Action) (x : Q) : dict_set d a x <> [].
Proof.
  destruct d as [|[k y] d]; simpl; [discriminate|].
  destruct (String.eqb k a); discriminate.
Qed.

Lemma dict_set_values (P : Q -> Prop) (d : dict) (a : Action) (x : Q) :
  P x -> Forall P (dict_values d) -> Forall P (dict_values (dict_set d a x)).
Proof.
  intros Hx. unfold dict_values.
  induction d as [|[k y] d IH]; intros Hd; simpl.
  - constructor; [exact Hx|constructor].
  - inversion Hd as [|? ? Hy Hrest]; subst.
    destruct (String.eqb k a); simpl; constructor; auto.
Qed.

Section DictOfKeys.
Variable f : Action -> Q.

Let step (acc : dict) (a : Action) : dict := dict_set acc a (f a).

Lemma fold_keys_nodup (xs : list Action) (acc : dict) :
  NoDup xs ->
  (forall a, In a xs -> ~ In a (dict_keys acc)) ->
  fold_left step xs acc = acc ++ map (fun a => (a, f a)) xs.
Proof.
  revert acc. induction xs as [|x xs IH]; intros acc Hnd Hfresh; simpl.
  - rewrite app_nil_r. reflexivity.
  - inversion Hnd as [|? ? Hx Hxs]; subst.
    unfold step at 2.
    rewrite dict_set_fresh by (apply Hfresh; left; reflexivity).
    rewrite IH; [rewrite <- app_assoc; reflexivity|exact Hxs|].
    intros a Ha Hin. unfold dict_keys in Hin.
    rewrite map_app in Hin. apply in_app_iff in Hin.
    destruct Hin as [Hin|[<-|[]]].
    + apply (Hfresh a); [right; exact Ha|exact Hin].
    + apply Hx, list_elem_of_In, Ha.
Qed.

Lemma fold_keys_nonempty (xs : list Action) (acc : dict) :
  acc <> [] \/ xs <> [] -> fold_left step xs acc <> [].
Proof.
  revert acc. induction xs as [|x xs IH]; intros acc Hne; simpl.
  - destruct Hne as [Hne|Hne]; [exact Hne|congruence].
  - apply IH. left. apply dict_set_nonempty.
Qed.

Lemma fold_keys_values (P : Q -> Prop) (xs : list Action) (acc : dict) :
  (forall a, P (f a)) ->
  Forall P (dict_values acc) ->
  Forall P (dict_values (fold_left step xs acc)).
Proof.
  intros Hf. revert acc. induction xs as [|x xs IH]; intros acc Hacc; simpl.
  - exact Hacc.
  - apply IH, dict_set_values; [apply Hf|exact Hacc].
Qed.

Lemma dict_of_keys_nodup (xs : list Action) :
  NoDup xs -> dict_of_keys f xs = map (fun a => (a, f a)) xs.
Proof.
  intros Hnd. unfold dict_of_keys.
  apply (fold_keys_nodup xs [] Hnd). intros a _ [].
Qed.

Lemma dict_of_keys_nonempty (xs : list Action) :
  xs <> [] -> dict_of_keys f xs <> [].
Proof. intros Hne. apply fold_keys_nonempty. right. exact Hne. Qed.

Lemma dict_of_keys_values (P : Q -> Prop) (xs : list Action) :
  (forall a, P (f a)) -> Forall P (dict_values (dict_of_keys f xs)).
Proof. intros Hf. apply fold_keys_values; [exact Hf|constructor]. Qed.
End DictOfKeys.

Lemma dict_get_default_nonneg (d : dict) (a : Action) :
  Forall (fun x => 0 <= x) (dict_values d) -> 0 <= dict_get_default d a 0.
Proof.
  unfold dict_get_default, dict_values.
  induction d as [|[k y] d IH]; intros Hd; simpl.
  - apply Qle_refl.
  - inversion Hd as [|? ? Hy Hrest]; subst.
    destruct (String.eqb k a); [exact Hy|apply IH, Hrest].
Qed.

(** ** The average strategy *)

Lemma average_strategy_sum (I : InfoSet) :
  actions I <> [] -> py_sum (dict_values (average_strategy I)) == 1.
Proof.
  intros Hne. unfold average_strategy. cbn zeta.
  set (cs := dict_of_keys _ (actions I)).
  assert (Hcs : cs <> []) by (apply dict_of_keys_nonempty, Hne).
  destruct (py_gt _ 0) eqn:Hgt.
  - apply normalised_sum; [apply py_sum_total|apply py_gt_spec, Hgt].
  - unfold py_len, dict_keys. rewrite length_map.
    apply distribution_uniform, Hcs.
Qed.

Lemma average_strategy_nonneg (I : InfoSet) :
  actions I <> [] ->
  Forall (fun x => 0 <= x) (dict_values (cumulative_strategy I)) ->
  Forall (fun x => 0 <= x) (dict_values (average_strategy I)).
Proof.
  intros Hne Hnn. unfold average_strategy. cbn zeta.
  set (cs := dict_of_keys _ (actions I)).
  assert (Hcs : cs <> []) by (apply dict_of_keys_nonempty, Hne).
  destruct (py_gt _ 0) eqn:Hgt.
  - apply normalised_nonneg; [|apply py_gt_spec, Hgt].
    apply dict_of_keys_values. intros a.
    apply dict_get_default_nonneg, Hnn.
  - unfold py_len, dict_keys. rewrite length_map.
    apply distribution_uniform, Hcs.
Qed.

Lemma average_strategy_refines (I : InfoSet) :
  NoDup (actions I) ->
  dict_eq (average_strategy I)
          (avg_strategy (actions I) (cumulative_strategy I)).
Proof.
  intros Hnd. unfold average_strategy, avg_strategy, dict_eq. cbn zeta.
  rewrite (dict_of_keys_nodup _ _ Hnd).
  set (mass := map _ (actions I)).
  assert (Hsum : py_sum (dict_values mass) == total (map snd mass))
    by apply py_sum_total.
  set (Sc := py_sum _) in *.
  destruct (py_gt Sc 0) eqn:Hgt; destruct (Qlt_le_dec 0 _) as [Hlt|Hle].
  - apply Forall2_map_pointwise. intros [a r] _. simpl. split; [reflexivity|].
    rewrite Hsum. reflexivity.
  - apply py_gt_spec in Hgt. rewrite Hsum in Hgt.
    exfalso. apply (Qlt_not_le _ _ Hgt Hle).
  - apply py_gt_false in Hgt. rewrite Hsum in Hgt.
    exfalso. apply (Qlt_not_le _ _ Hlt Hgt).
  - apply Forall2_map_pointwise. intros [a r] _. simpl. split; [reflexivity|].
    unfold py_len, dict_keys. rewrite length_map. reflexivity.
Qed.

(** ** Saving and loading *)

Lemma calculate_strategy_up_to_date (I I' : InfoSet) :
  calculate_strategy I = Ok I' -> up_to_date I'.
Proof.
  rewrite calculate_strategy_ok. intros [= <-].
  unfold up_to_date. rewrite calculate_strategy_ok. reflexivity.
Qed.

Lemma InfoSet_init_up_to_date (k : string) (acts : list Action) :
  exists I, InfoSet_init k acts = Ok I /\ up_to_date I.
Proof.
  unfold InfoSet_init. eexists. split.
  - apply calculate_strategy_ok.
  - eapply calculate_strategy_up_to_date, calculate_strategy_ok.
Qed.

Lemma load_dict_up_to_date (I I' : InfoSet) (data : SavedDict) :
  load_dict I data = (Ok tt, I') -> up_to_date I'.
Proof.
  unfold load_dict.
  destruct (d_regret data) as [r|]; [|discriminate].
  destruct (d_average_strategy data) as [c|]; [|discriminate].
  destruct (calculate_strategy _) as [I3|e] eqn:E; [|discriminate].
  intros [= <-]. eapply calculate_strategy_up_to_date, E.
Qed.

Lemma up_to_date_strategy (I : InfoSet) :
  up_to_date I -> strategy I = regret_matching (regret I).
Proof.
  unfold up_to_date. rewrite calculate_strategy_ok.
  intros [= Heq]. rewrite <- Heq at 1. reflexivity.
Qed.

(** On the object that the walk of [game_own_node] leaves in the store,
    loading what was saved does not give back the strategy: the strategy
    before saving is [1/2, 1/2], the one after loading is [1, 0]. *)
Lemma load_dict_changes_stale_strategy :
  walk_tree 3 (AHistory game_own_node) 1%Z 1 1 CFR_init
  = Some (Raise TypeError, mkCFR {["P1"%string := 0%nat]} [stale_P1]) /\
  exists J',
    load_dict stale_P1 (to_dict stale_P1) = (Ok tt, J') /\
    strategy J' = [("x"%string, 1 # 1); ("y"%string, 0 # 1)] /\
    strategy J' <> strategy stale_P1.
Proof.
  split; [vm_compute; reflexivity|].
  eexists. split; [vm_compute; reflexivity|].
  split; [reflexivity|discriminate].
Qed.

Lemma set_strategy_same (I : InfoSet) : set_strategy I (strategy I) = I.
Proof. destruct I. reflexivity. Qed.

(** C8, amended. Loading into any information set [J] the dictionary
    saved from [I] returns normally; it leaves [J] with the regret and the
    cumulative strategy of [I], verbatim, and with the strategy that
    regret matching computes from that regret.  The strategy after loading
    is the strategy [I] had when it was saved exactly when that strategy
    was current, that is, when recomputing it on [I] changes nothing. *)
Theorem load_dict_to_dict (I J : InfoSet) :
  exists J',
    load_dict J (to_dict I) = (Ok tt, J') /\
    key J' = key J /\ actions J' = actions J /\
    regret J' = regret I /\
    cumulative_strategy J' = cumulative_strategy I /\
    dict_eq (strategy J') (strategy_from_regret (regret I)) /\
    up_to_date J' /\
    (strategy J' = strategy I <-> up_to_date I).
Proof.
  exists (set_strategy
            (set_cumulative_strategy (set_regret J (regret I))
                                     (cumulative_strategy I))
            (regret_matching (regret I))).
  split.
  { unfold load_dict, to_dict. cbn [d_regret d_average_strategy].
    rewrite calculate_strategy_ok. reflexivity. }
  repeat (split; [reflexivity|]). cbn [strategy set_strategy].
  split; [apply regret_matching_refines|].
  split.
  - apply (calculate_strategy_up_to_date
             (set_cumulative_strategy (set_regret J (regret I))
                                      (cumulative_strategy I))).
    rewrite calculate_strategy_ok. reflexivity.
  - split.
    + intros Heq. unfold up_to_date.
      rewrite calculate_strategy_ok, Heq, set_strategy_same. reflexivity.
    + intros Hcur. symmetry. apply up_to_date_strategy, Hcur.
Qed.

(** C9. When the saved dictionary lacks ['regret'] or ['average_strategy'],
    [load_dict] raises [KeyError] for the first missing key.  No
    accumulator is given a default value: the cumulative strategy and the
    strategy are the ones the object had, and the regret is the one the
    object had (when ['regret'] is missing) or the loaded one (when only
    ['average_strategy'] is missing). *)
Theorem load_dict_missing_key (I : InfoSet) (data : SavedDict) :
  d_regret data = None \/ d_average_strategy data = None ->
  exists k I',
    load_dict I data = (Raise (KeyError k), I') /\
    (k = "regret"%string \/ k = "average_strategy"%string) /\
    key I' = key I /\ actions I' = actions I /\
    strategy I' = strategy I /\
    cumulative_strategy I' = cumulative_strategy I /\
    (d_regret data = None -> I' = I) /\
    (forall r, d_regret data = Some r -> regret I' = r).
Proof.
  intros Hmissing. unfold load_dict.
  destruct (d_regret data) as [r|] eqn:Er.
  - destruct Hmissing as [Hr|Hc]; [discriminate|]. rewrite Hc.
    exists "average_strategy"%string, (set_regret I r).
    split; [reflexivity|]. split; [right; reflexivity|].
    do 4 (split; [reflexivity|]).
    split; [discriminate|]. intros r' [= <-]. reflexivity.
  - exists "regret"%string, I.
    split; [reflexivity|]. split; [left; reflexivity|].
    do 4 (split; [reflexivity|]).
    split; [reflexivity|]. discriminate.
Qed.

(** ** Empty action sets *)

(** The claim of a division-by-zero error fails on the information set
    without actions: both computations return, with empty dictionaries. *)
Lemma empty_action_set_returns :
  actions empty_info_set = [] /\
  calculate_strategy empty_info_set = Ok empty_info_set /\
  get_average_strategy empty_info_set = Ok [] /\
  calculate_strategy empty_info_set <> Raise ZeroDivisionError /\
  get_average_strategy empty_info_set <> Raise ZeroDivisionError.
Proof.
  split; [reflexivity|]. split; [reflexivity|]. split; [reflexivity|].
  split; discriminate.
Qed.

(** C10, amended. Neither [calculate_strategy] nor [get_average_strategy]
    can raise: the division by the action count is evaluated once per entry
    of the dictionary, hence never for an empty action set, where both
    produce the empty dictionary, and with a count of at least 1
    otherwise. *)
Theorem strategy_computations_never_raise (I : InfoSet) :
  (exists I', calculate_strategy I = Ok I') /\
  (exists avg, get_average_strategy I = Ok avg) /\
  (regret I = [] -> calculate_strategy I = Ok (set_strategy I [])) /\
  (actions I = [] -> get_average_strategy I = Ok []).
Proof.
  split; [eexists; apply calculate_strategy_ok|].
  split; [eexists; apply get_average_strategy_ok|].
  split.
  - intros Hr. rewrite calculate_strategy_ok, Hr. reflexivity.
  - intros Ha. rewrite get_average_strategy_ok.
    unfold average_strategy. rewrite Ha. reflexivity.
Qed.

(** ** The information set store *)

Lemma stable_refl (s : CFR) : stable s s.
Proof. split; [intros k ref Hk; exact Hk|auto]. Qed.

Lemma stable_trans (s1 s2 s3 : CFR) :
  stable s1 s2 -> stable s2 s3 -> stable s1 s3.
Proof.
  intros [Hk12 Hi12] [Hk23 Hi23]. split.
  - intros k ref Hk. apply Hk23, Hk12, Hk.
  - auto.
Qed.

Lemma keeps_ret {A} (a : A) : keeps stable (mret a).
Proof. intros s r s' [= _ <-]. apply stable_refl. Qed.

Lemma keeps_lift {A} (x : result A) : keeps stable (lift x).
Proof. intros s r s' [= _ <-]. apply stable_refl. Qed.

Lemma keeps_read (ref : nat) : keeps stable (read_obj ref).
Proof.
  intros s r s'. unfold read_obj.
  destruct (objects s !! ref); [|discriminate].
  intros [= _ <-]. apply stable_refl.
Qed.

Lemma keeps_getitem (ref : nat) (field : InfoSet -> dict) (a : Action) :
  keeps stable (obj_getitem ref field a).
Proof.
  intros s r s'. unfold obj_getitem, read_obj, mbind, M_bind.
  destruct (objects s !! ref); [|discriminate].
  intros [= _ <-]. apply stable_refl.
Qed.

Lemma keeps_write (ref : nat) (o : InfoSet) : keeps stable (write_obj ref o).
Proof.
  intros s r s' [= _ <-]. split; [intros k x Hk; exact Hk|].
  unfold one_instance_per_key. cbn [info_sets objects].
  rewrite length_insert. auto.
Qed.

Lemma keeps_bind {A B} (m : M A) (k : A -> M B) :
  keeps stable m -> (forall a, keeps stable (k a)) -> keeps stable (m ≫= k).
Proof.
  intros Hm Hk s r s'. unfold mbind, M_bind.
  destruct (m s) as [[[a|e] s1]|] eqn:E; [| |discriminate].
  - intros Hrun. eapply stable_trans; [eapply Hm, E|eapply Hk, Hrun].
  - intros [= _ <-]. eapply Hm, E.
Qed.

Lemma keeps_for_each {X St} (xs : list X) (body : X -> St -> M St) (st : St) :
  (forall x st, keeps stable (body x st)) ->
  keeps stable (for_each xs body st).
Proof.
  intros Hbody. revert st. induction xs as [|x xs IH]; intros st; simpl.
  - apply keeps_ret.
  - apply keeps_bind; [apply Hbody|exact IH].
Qed.

Section Store.
Context {H : Type} `{History H}.

Lemma get_info_set_present (h : H) (s : CFR) (ref : nat) :
  info_sets s !! info_set_key h = Some ref ->
  _get_info_set h s = Some (Ok ref, s).
Proof. intros Hk. unfold _get_info_set. rewrite Hk. reflexivity. Qed.

Lemma get_info_set_absent (h : H) (s : CFR) (o : InfoSet) :
  info_sets s !! info_set_key h = None ->
  new_info_set h = Ok o ->
  _get_info_set h s
  = Some (Ok (length (objects s)),
          mkCFR (<[info_set_key h := length (objects s)]> (info_sets s))
                (objects s ++ [o])).
Proof.
  intros Hk Hnew. unfold _get_info_set. rewrite Hk, Hnew. reflexivity.
Qed.

Lemma get_info_set_bound (h : H) (s s1 : CFR) (ref : nat) :
  _get_info_set h s = Some (Ok ref, s1) ->
  info_sets s1 !! info_set_key h = Some ref.
Proof.
  unfold _get_info_set.
  destruct (info_sets s !! info_set_key h) as [ref0|] eqn:Hk.
  - intros [= <- <-]. exact Hk.
  - destruct (new_info_set h) as [o|e]; [|discriminate].
    intros [= <- <-]. cbn [info_sets]. apply lookup_insert_eq.
Qed.

Lemma allocation_stable (s : CFR) (k : string) (o : InfoSet) :
  info_sets s !! k = None ->
  stable s (mkCFR (<[k := length (objects s)]> (info_sets s))
                  (objects s ++ [o])).
Proof.
  intros Hk. split.
  - intros k' ref Hk'. cbn [info_sets].
    rewrite lookup_insert_ne; [exact Hk'|]. intros ->. congruence.
  - intros (Halloc & Hinj & Hsurj).
    unfold one_instance_per_key. cbn [info_sets objects].
    rewrite length_app. cbn [length]. repeat split.
    + intros k' ref. rewrite lookup_insert. case_decide.
      * intros [= <-]. lia.
      * intros Hk'. specialize (Halloc _ _ Hk'). lia.
    + intros k1 k2 ref. rewrite !lookup_insert.
      repeat case_decide; subst; try congruence.
      * intros [= <-] Hk2. specialize (Halloc _ _ Hk2). lia.
      * intros Hk1 [= <-]. specialize (Halloc _ _ Hk1). lia.
      * apply Hinj.
    + intros ref Href.
      destruct (decide (ref = length (objects s))) as [->|Hne].
      * exists k. apply lookup_insert_eq.
      * destruct (Hsurj ref) as [k' Hk']; [lia|]. exists k'.
        rewrite lookup_insert_ne; [exact Hk'|]. intros ->. congruence.
Qed.

Lemma keeps_get_info_set (h : H) : keeps stable (_get_info_set h).
Proof.
  intros s r s'. unfold _get_info_set.
  destruct (info_sets s !! info_set_key h) as [ref|] eqn:Hk.
  - intros [= _ <-]. apply stable_refl.
  - destruct (new_info_set h) as [o|e].
    + intros [= _ <-]. apply allocation_stable, Hk.
    + intros [= _ <-]. apply stable_refl.
Qed.
End Store.

(** One step of a proof that a computation written with the combinators
    keeps the store stable. *)
Ltac keeps_step :=
  match goal with
  | |- keeps _ (mret _) => apply keeps_ret
  | |- keeps _ (lift _) => apply keeps_lift
  | |- keeps _ (read_obj _) => apply keeps_read
  | |- keeps _ (obj_getitem _ _ _) => apply keeps_getitem
  | |- keeps _ (write_obj _ _) => apply keeps_write
  | |- keeps _ (_get_info_set _) => apply keeps_get_info_set
  | |- keeps _ (for_each _ _ _) => apply keeps_for_each
  | |- keeps _ (_ ≫= _) => apply keeps_bind
  | |- keeps _ (if ?b then _ else _) => destruct b
  | |- keeps _ (let '(_, _) := ?p in _) => destruct p
  | |- forall _, _ => intro
  | IH : forall _ _ _ _, keeps _ (walk_tree ?fuel _ _ _ _)
    |- keeps _ (walk_tree ?fuel _ _ _ _) => apply IH
  end.

Section Walk.
Context {H : Type} `{History H}.

Lemma keeps_walk_tree (fuel : nat) (h : walk_arg H) (i : Player)
    (pi_i pi_neg_i : Q) :
  keeps stable (walk_tree fuel h i pi_i pi_neg_i).
Proof.
  revert h i pi_i pi_neg_i.
  induction fuel as [|fuel IH]; intros h i pi_i pi_neg_i.
  - intros s r s'. discriminate.
  - cbn [walk_tree]. destruct h as [h|h]; [|apply keeps_lift].
    repeat keeps_step.
Qed.

Lemma step_stable (s s' : CFR) : step s s' -> stable s s'.
Proof.
  intros [h s0 r s0' Hrun|fuel h i p q s0 r s0' Hrun].
  - eapply keeps_get_info_set, Hrun.
  - eapply keeps_walk_tree, Hrun.
Qed.

Lemma run_stable (s s' : CFR) : rtc step s s' -> stable s s'.
Proof.
  induction 1 as [s|s1 s2 s3 Hstep _ IH].
  - apply stable_refl.
  - eapply stable_trans; [apply step_stable, Hstep|exact IH].
Qed.

Lemma init_one_instance_per_key : one_instance_per_key CFR_init.
Proof.
  unfold one_instance_per_key, CFR_init. cbn [info_sets objects length].
  repeat split.
  - intros k ref Hk. rewrite lookup_empty in Hk. discriminate.
  - intros k1 k2 ref Hk. rewrite lookup_empty in Hk. discriminate.
  - intros ref Href. lia.
Qed.

(** C7. A lookup always comes back.  It returns the object already bound
    to the key and leaves the store as it is; for an unbound key it stores
    the object built by [new_info_set] under a fresh identity, binds the
    key to it and returns it.  A second lookup with the same key returns
    the same object identity.  Along a run that starts from the empty
    store and uses it through lookups and walks, every key is bound to
    exactly one object, and a binding, once made, is never changed. *)
Theorem get_info_set_one_instance (h : H) (s : CFR) :
  (exists r s', _get_info_set h s = Some (r, s')) /\
  (forall ref, info_sets s !! info_set_key h = Some ref ->
               _get_info_set h s = Some (Ok ref, s)) /\
  (forall o, info_sets s !! info_set_key h = None ->
             new_info_set h = Ok o ->
             exists ref s',
               _get_info_set h s = Some (Ok ref, s') /\
               ref = length (objects s) /\
               info_sets s' = <[info_set_key h := ref]> (info_sets s) /\
               objects s' = objects s ++ [o] /\
               objects s' !! ref = Some o) /\
  (forall ref s1 h',
      _get_info_set h s = Some (Ok ref, s1) ->
      info_set_key h' = info_set_key h ->
      _get_info_set h' s1 = Some (Ok ref, s1)) /\
  (forall s1, rtc step CFR_init s1 ->
     one_instance_per_key s1 /\
     forall s2, rtc step s1 s2 -> bindings_kept s1 s2).
Proof.
  split.
  { unfold _get_info_set.
    destruct (info_sets s !! info_set_key h); [eexists _, _; reflexivity|].
    destruct (new_info_set h); eexists _, _; reflexivity. }
  split; [intros ref; apply get_info_set_present|].
  split.
  { intros o Hk Hnew. eexists _, _.
    split; [apply get_info_set_absent; eassumption|].
    split; [reflexivity|]. split; [reflexivity|]. split; [reflexivity|].
    cbn [objects]. rewrite lookup_app_r by lia.
    rewrite Nat.sub_diag. reflexivity. }
  split.
  { intros ref s1 h' Hrun Hkey. apply get_info_set_present.
    rewrite Hkey. eapply get_info_set_bound, Hrun. }
  intros s1 Hrun. split.
  - apply (run_stable _ _ Hrun), init_one_instance_per_key.
  - intros s2 Hrun2. apply (run_stable _ _ Hrun2).
Qed.
End Walk.

(** ** The tree walker on concrete games *)

Section ChanceBranch.
Context {H : Type} `{History H}.

(** At a chance history the walker calls itself on the method object
    [h.sample_chance]; that call fails on [is_terminal]. *)
Lemma walk_tree_chance (n : nat) (h : H) (i : Player) (pi_i pi_neg_i : Q)
    (s : CFR) :
  is_terminal h = false ->
  is_chance h = true ->
  walk_tree (S (S n)) (AHistory h) i pi_i pi_neg_i s
  = Some (Raise AttributeError, s).
Proof.
  intros Hterm Hchance. cbn [walk_tree]. rewrite Hterm, Hchance. reflexivity.
Qed.
End ChanceBranch.

(** C1, on the code. Walking [game_one_node] for player 1 from the empty
    store returns 0, the children's values weighted by the cumulative
    strategy (all zero in a new information set), not the value
    [1/2 * 1 + 1/2 * 3] that the current strategy gives.  Walking
    [game_two_levels] passes on to player 1's node the opponent reach
    [1 * cumulative_strategy[l] = 0] instead of [1 * strategy[l] = 1/2]:
    the regret recorded there for [x] is [0 + 0 * (1 - 0)], not
    [0 + 1/2 * (1 - 0)]. *)
Theorem walk_tree_weights_by_cumulative_strategy :
  walk_tree 3 (AHistory game_one_node) 1%Z 1 1 CFR_init
  = Some (Ok 0, mkCFR {["P2"%string := 0%nat]} [fresh_P2]) /\
  ~ 0 == (1 # 2) * 1 + (1 # 2) * 3 /\
  walk_tree 4 (AHistory game_two_levels) 1%Z 1 1 CFR_init
  = Some (Raise TypeError,
          mkCFR (<["P1"%string := 1%nat]> {["P2"%string := 0%nat]})
                [fresh_P2; fresh_P1]) /\
  ~ 0 == 0 + (1 # 2) * (1 - 0).
Proof.
  split; [vm_compute; reflexivity|]. split; [discriminate|].
  split; [vm_compute; reflexivity|]. discriminate.
Qed.

(** C2, on the code. At the chance history [game_chance] the walker raises
    [AttributeError] and leaves the store as it found it, whatever the
    player, the reach probabilities and the store: no chance action is
    sampled and the history is not extended.  The walk of the history
    extended by the sampled action [K], which the claim says is returned,
    is a different computation: from the empty store it allocates player
    1's information set and updates its regret. *)
Theorem walk_tree_chance_not_sampled (n : nat) (i : Player)
    (pi_i pi_neg_i : Q) (s : CFR) :
  is_terminal game_chance = false /\
  is_chance game_chance = true /\
  walk_tree (S (S n)) (AHistory game_chance) i pi_i pi_neg_i s
  = Some (Raise AttributeError, s) /\
  sample_chance game_chance = "K"%string /\
  walk_tree 3 (AHistory (add game_chance (sample_chance game_chance)))
            1%Z 1 1 CFR_init
  = Some (Raise TypeError,
          mkCFR {["P1"%string := 0%nat]}
                [set_regret fresh_P1 [("x"%string, 1); ("y"%string, 0)]]).
Proof.
  split; [reflexivity|]. split; [reflexivity|].
  split; [apply walk_tree_chance; reflexivity|].
  split; [reflexivity|]. vm_compute. reflexivity.
Qed.

(** C3, on the code. Walking [game_own_node] for player 1, who acts at its
    only node, ends with [TypeError]: the regret of the first action [x]
    has received [1 * (1 - 0)], the regret of [y] has received nothing
    (the claim gives it [1 * (-1 - 0)] with the same node value), and the
    strategy is still the one computed before the update, not the one
    regret matching gives for the new regret. *)
Theorem walk_tree_regret_update_aborts :
  walk_tree 3 (AHistory game_own_node) 1%Z 1 1 CFR_init
  = Some (Raise TypeError,
          mkCFR {["P1"%string := 0%nat]}
                [{| key := "P1"; actions := ["x"; "y"]%string;
                    strategy := [("x"%string, 1 # 2); ("y"%string, 1 # 2)];
                    regret := [("x"%string, 1); ("y"%string, 0)];
                    cumulative_strategy :=
                      [("x"%string, 0); ("y"%string, 0)] |}]) /\
  ~ dict_eq [("x"%string, 1 # 2); ("y"%string, 1 # 2)]
            (strategy_from_regret [("x"%string, 1); ("y"%string, 0)]).
Proof.
  split; [vm_compute; reflexivity|].
  intros Heq. inversion Heq as [|? ? ? ? [_ Hx] _]; subst.
  vm_compute in Hx. discriminate.
Qed.

(** C4, on the code. In the same walk the cumulative strategy of player
    1's information set receives nothing: it is all zero afterwards, where
    the claim puts [0 + 1 * 1/2] under each action.  The statement that
    should add to it reads [I.strategy[a]], then calls the dictionary
    [I.cumulative_strategy], which raises before anything is stored. *)
Theorem walk_tree_cumulative_strategy_untouched :
  exists s',
    walk_tree 3 (AHistory game_own_node) 1%Z 1 1 CFR_init
    = Some (Raise TypeError, s') /\
    cumulative_strategy <$> objects s' !! 0%nat
    = Some [("x"%string, 0); ("y"%string, 0)] /\
    strategy <$> objects s' !! 0%nat
    = Some [("x"%string, 1 # 2); ("y"%string, 1 # 2)] /\
    ~ 0 == 0 + 1 * (1 # 2) /\
    forall a, dict_call [("x"%string, 0); ("y"%string, 0)] a = Raise TypeError.
Proof.
  eexists. split; [vm_compute; reflexivity|].
  split; [reflexivity|]. split; [reflexivity|].
  split; [discriminate|]. reflexivity.
Qed.

(** ** Instances of the conditional statements *)

Lemma calculate_strategy_regret_matching_witness :
  regret sample_info_set <> [] /\
  exists I',
    calculate_strategy sample_info_set = Ok I' /\
    dict_eq (strategy I') (strategy_from_regret (regret sample_info_set)) /\
    distribution (strategy I').
Proof.
  split; [discriminate|].
  destruct (calculate_strategy_regret_matching sample_info_set)
    as (I' & Hrun & _ & _ & _ & _ & Hrule & _ & Hdist); [discriminate|].
  exists I'. split; [exact Hrun|]. split; [exact Hrule|exact Hdist].
Defined.

Lemma get_info_set_one_instance_witness :
  let h := add game_two_levels "l" in
  let h' := add game_two_levels "r" in
  info_set_key h' = info_set_key h /\
  exists s1,
    _get_info_set h CFR_init = Some (Ok 0%nat, s1) /\
    objects s1 = [fresh_P1] /\
    _get_info_set h' s1 = Some (Ok 0%nat, s1).
Proof.
  intros h h'.
  assert (Hkey : info_set_key h' = info_set_key h) by reflexivity.
  split; [exact Hkey|].
  destruct (get_info_set_one_instance h CFR_init)
    as (_ & _ & Hnew & Hagain & _).
  destruct (Hnew fresh_P1) as (ref & s1 & Hrun & -> & _ & Hobjs & _);
    [reflexivity|reflexivity|].
  exists s1. split; [exact Hrun|]. split; [exact Hobjs|].
  exact (Hagain _ _ h' Hrun Hkey).
Defined.

Lemma load_dict_to_dict_witness :
  up_to_date sample_info_set /\
  exists J',
    load_dict fresh_P1 (to_dict sample_info_set) = (Ok tt, J') /\
    regret J' = regret sample_info_set /\
    cumulative_strategy J' = cumulative_strategy sample_info_set /\
    strategy J' = strategy sample_info_set.
Proof.
  assert (Hcur : up_to_date sample_info_set) by reflexivity.
  split; [exact Hcur|].
  destruct (load_dict_to_dict sample_info_set fresh_P1)
    as (J' & Hrun & _ & _ & Hr & Hc & _ & _ & Hs).
  exists J'. split; [exact Hrun|]. split; [exact Hr|].
  split; [exact Hc|exact (proj2 Hs Hcur)].
Defined.

Lemma load_dict_missing_key_witness :
  (d_regret sample_truncated = None \/
   d_average_strategy sample_truncated = None) /\
  exists k I',
    load_dict sample_info_set sample_truncated = (Raise (KeyError k), I') /\
    cumulative_strategy I' = cumulative_strategy sample_info_set.
Proof.
  assert (Hmissing : d_regret sample_truncated = None \/
                     d_average_strategy sample_truncated = None)
    by (right; reflexivity).
  split; [exact Hmissing|].
  destruct (load_dict_missing_key sample_info_set sample_truncated Hmissing)
    as (k & I' & Hrun & _ & _ & _ & _ & Hc & _).
  exists k, I'. split; [exact Hrun|exact Hc].
Defined.

Lemma walk_tree_stub_returns {H : Type} (h : H) (i : Player)
    (pi_1 pi_2 : Q) (s : CFR) :
  walk_tree_stub h i pi_1 pi_2 s = Some (Ok tt, s).
Proof. reflexivity. Qed.

(** * Further properties of the information set *)

(** ** Dictionaries compared entry by entry *)

Lemma dict_eq_refl (d : dict) : dict_eq d d.
Proof.
  induction d as [|kv d IH]; constructor; [|exact IH].
  split; reflexivity.
Qed.

Lemma dict_eq_sym (d1 d2 : dict) : dict_eq d1 d2 -> dict_eq d2 d1.
Proof.
  induction 1 as [|x y d1 d2 [Hk Hv] _ IH]; constructor; [|exact IH].
  split; [congruence|symmetry; exact Hv].
Qed.

Lemma dict_eq_trans (d1 d2 d3 : dict) :
  dict_eq d1 d2 -> dict_eq d2 d3 -> dict_eq d1 d3.
Proof.
  intros H12. revert d3.
  induction H12 as [|x y d1 d2 [Hk Hv] _ IH]; intros d3 H23;
    inversion H23 as [|? z ? d3' [Hk' Hv'] Hrest]; subst; constructor.
  - split; [congruence|rewrite Hv; exact Hv'].
  - apply IH, Hrest.
Qed.

Lemma dict_get_default_pred (P : Q -> Prop) (d : dict) (a : Action) (x : Q) :
  P x -> Forall P (dict_values d) -> P (dict_get_default d a x).
Proof.
  intros Hx. unfold dict_get_default, dict_values.
  induction d as [|[k y] d IH]; intros Hd; simpl; [exact Hx|].
  inversion Hd as [|? ? Hy Hrest]; subst.
  destruct (String.eqb k a); [exact Hy|apply IH, Hrest].
Qed.

Lemma total_nonpositive (xs : list Q) :
  Forall (fun x => x <= 0) xs -> total xs <= 0.
Proof.
  induction 1 as [|x xs Hx _ IH]; simpl; [apply Qle_refl|lra].
Qed.


(** ** Regret matching on its own *)

Lemma regret_matching_keys (d : dict) :
  dict_keys (regret_matching d) = dict_keys d.
Proof.
  unfold regret_matching. cbn zeta.
  destruct (py_gt _ 0); rewrite !dict_map_keys; reflexivity.
Qed.



(** X2. [calculate_strategy] reads the regret and nothing else: it
    always returns, gives the strategy one entry per entry of the regret
    under the same keys, leaves a current object (a second call changes
    nothing), and gives any other object with the same regret the same
    strategy, whatever strategy that object held before. *)
Theorem calculate_strategy_reads_regret_only (I : InfoSet) :
  exists I',
    calculate_strategy I = Ok I' /\
    dict_keys (strategy I') = dict_keys (regret I) /\
    calculate_strategy I' = Ok I' /\
    forall J, regret J = regret I ->
              exists J', calculate_strategy J = Ok J' /\
                         strategy J' = strategy I'.
Proof.
  exists (set_strategy I (regret_matching (regret I))).
  split; [apply calculate_strategy_ok|].
  split; [apply regret_matching_keys|].
  split; [rewrite calculate_strategy_ok; reflexivity|].
  intros J HJ. exists (set_strategy J (regret_matching (regret J))).
  split; [apply calculate_strategy_ok|].
  cbn [strategy set_strategy]. rewrite HJ. reflexivity.
Qed.

(** ** Scaling the regret *)

Lemma positive_scale (c r : Q) : 0 < c -> positive (c * r) == c * positive r.
Proof.
  intros Hc. unfold positive.
  destruct (Qlt_le_dec r 0) as [Hneg|Hpos].
  - rewrite (Q.max_r r 0) by lra. rewrite Q.max_r by nra. ring.
  - rewrite (Q.max_l r 0) by lra. rewrite Q.max_l by nra. reflexivity.
Qed.

Lemma total_positive_scale (c : Q) (d : dict) :
  0 < c ->
  total (map (fun kv => positive (snd kv)) (dict_map (Qmult c) d))
  == c * total (map (fun kv => positive (snd kv)) d).
Proof.
  intros Hc. induction d as [|[a r] d IH]; simpl.
  - ring.
  - fold (dict_map (Qmult c) d). rewrite IH, (positive_scale c r Hc). ring.
Qed.

Lemma strategy_from_regret_scale (c : Q) (d : dict) :
  0 < c ->
  dict_eq (strategy_from_regret (dict_map (Qmult c) d))
          (strategy_from_regret d).
Proof.
  intros Hc. unfold strategy_from_regret. cbn zeta.
  pose proof (total_positive_scale c d Hc) as Hsum.
  set (S' := total (map _ (dict_map (Qmult c) d))) in *.
  set (S := total (map _ d)) in *.
  destruct (Qlt_le_dec 0 S') as [Hlt'|Hle'];
    destruct (Qlt_le_dec 0 S) as [Hlt|Hle].
  - unfold dict_map, dict_eq. rewrite map_map.
    apply Forall2_map_pointwise. intros [a r] _. simpl. split; [reflexivity|].
    rewrite Hsum, (positive_scale c r Hc). field. split; lra.
  - exfalso. rewrite Hsum in Hlt'. nra.
  - exfalso. rewrite Hsum in Hle'. nra.
  - unfold uniform_over, dict_map, dict_eq. rewrite map_map, length_map.
    apply Forall2_map_pointwise. intros [a r] _. simpl. split; reflexivity.
Qed.

(** X3. Multiplying every regret by the same positive number does not
    change the strategy that [calculate_strategy] stores (the source keeps
    the regret sum rather than the average regret for this reason). *)
Theorem calculate_strategy_scale_invariant (I : InfoSet) (c : Q) :
  0 < c ->
  exists I1 I2,
    calculate_strategy I = Ok I1 /\
    calculate_strategy (set_regret I (dict_map (Qmult c) (regret I))) = Ok I2 /\
    dict_eq (strategy I2) (strategy I1).
Proof.
  intros Hc. eexists _, _.
  split; [apply calculate_strategy_ok|].
  split; [apply calculate_strategy_ok|].
  cbn [strategy set_strategy regret set_regret].
  eapply dict_eq_trans; [apply regret_matching_refines|].
  eapply dict_eq_trans; [apply strategy_from_regret_scale, Hc|].
  apply dict_eq_sym, regret_matching_refines.
Qed.

(** ** More on saving and loading *)


(** X5. Loading a dictionary that has both accumulators always succeeds,
    whatever they contain, and saving the object again gives back the two
    accumulators as they were loaded.  The ['key'] entry of the
    dictionary is never read: the object keeps its own key and its
    actions, and it is its own key that is saved. *)
Theorem to_dict_load_dict (I : InfoSet) (data : SavedDict) (r c : dict) :
  d_regret data = Some r ->
  d_average_strategy data = Some c ->
  exists I',
    load_dict I data = (Ok tt, I') /\
    key I' = key I /\ actions I' = actions I /\
    up_to_date I' /\
    to_dict I' = {| d_key := Some (key I);
                    d_regret := Some r;
                    d_average_strategy := Some c |}.
Proof.
  intros Hr Hc. unfold load_dict. rewrite Hr, Hc, calculate_strategy_ok.
  eexists. split; [reflexivity|]. do 2 (split; [reflexivity|]).
  split; [|reflexivity].
  unfold up_to_date. rewrite calculate_strategy_ok. reflexivity.
Qed.

(** ** The average strategy without positive mass *)

Lemma nonpositive_average_uniform (I : InfoSet) :
  Forall (fun x => x <= 0) (dict_values (cumulative_strategy I)) ->
  exists avg,
    get_average_strategy I = Ok avg /\
    Forall (fun x => x = 1 / py_len (dict_keys avg)) (dict_values avg) /\
    (NoDup (actions I) -> dict_keys avg = actions I).
Proof.
  intros Hnp. rewrite get_average_strategy_ok. eexists.
  split; [reflexivity|]. unfold average_strategy. cbn zeta.
  set (cs := dict_of_keys _ (actions I)).
  assert (Hcs : Forall (fun x => x <= 0) (dict_values cs)).
  { apply dict_of_keys_values. intros a.
    apply dict_get_default_pred; [apply Qle_refl|exact Hnp]. }
  assert (Hgt : py_gt (py_sum (dict_values cs)) 0 = false).
  { apply py_gt_false. rewrite py_sum_total. apply total_nonpositive, Hcs. }
  rewrite Hgt, dict_map_keys, dict_map_values. split.
  - apply List.Forall_forall. intros y Hy. apply in_map_iff in Hy.
    destruct Hy as [x [<- _]]. reflexivity.
  - intros Hnd. unfold cs. rewrite (dict_of_keys_nodup _ _ Hnd).
    unfold dict_keys. rewrite map_map. apply map_id.
Qed.

(** X6. When no entry of the cumulative strategy is positive, which is so
    for every object [InfoSet.__init__] builds, [get_average_strategy]
    returns the same value [1 / count] under every action, [count] being
    the number of entries it returns. *)
Theorem get_average_strategy_uniform (I : InfoSet) :
  Forall (fun x => x <= 0) (dict_values (cumulative_strategy I)) ->
  exists avg,
    get_average_strategy I = Ok avg /\
    Forall (fun x => x = 1 / py_len (dict_keys avg)) (dict_values avg) /\
    (NoDup (actions I) -> dict_keys avg = actions I).
Proof.
  intros Hnp.
  destruct (nonpositive_average_uniform I Hnp) as (avg & Hrun & Hunif & Hkeys).
  exists avg. split; [exact Hrun|]. split; [exact Hunif|exact Hkeys].
Qed.

(** * The tracker *)

(** ** Lookups in dictionaries built by the code *)

Lemma dict_get_set_eq (d : dict) (a : Action) (x : Q) :
  dict_get (dict_set d a x) a = Some x.
Proof.
  induction d as [|[k y] d IH]; simpl.
  - rewrite String.eqb_refl. reflexivity.
  - destruct (String.eqb k a) eqn:E; simpl; rewrite E; [reflexivity|exact IH].
Qed.

Lemma dict_get_set_ne (d : dict) (a b : Action) (x : Q) :
  a <> b -> dict_get (dict_set d a x) b = dict_get d b.
Proof.
  intros Hne. induction d as [|[k y] d IH]; simpl.
  - destruct (String.eqb a b) eqn:E; [|reflexivity].
    apply String.eqb_eq in E. contradiction.
  - destruct (String.eqb k a) eqn:E; simpl.
    + apply String.eqb_eq in E. subst k.
      destruct (String.eqb a b) eqn:E'; [|reflexivity].
      apply String.eqb_eq in E'. contradiction.
    + destruct (String.eqb k b); [reflexivity|exact IH].
Qed.

Lemma dict_get_map (g : Q -> Q) (d : dict) (a : Action) :
  dict_get (dict_map g d) a = g <$> dict_get d a.
Proof.
  induction d as [|[k y] d IH]; simpl; [reflexivity|].
  destruct (String.eqb k a); [reflexivity|exact IH].
Qed.

Lemma dict_get_keys (d : dict) (a : Action) :
  is_Some (dict_get d a) <-> In a (dict_keys d).
Proof.
  induction d as [|[k y] d IH]; simpl.
  - split; [intros [x Hx]; discriminate|intros []].
  - destruct (String.eqb k a) eqn:E.
    + apply String.eqb_eq in E. split; [left; exact E|eauto].
    + apply String.eqb_neq in E. rewrite IH. split; [auto|].
      intros [Hk|Hin]; [contradiction|exact Hin].
Qed.

Lemma fold_keys_get (f : Action -> Q) (xs : list Action) (acc : dict)
    (a : Action) :
  dict_get (fold_left (fun acc a => dict_set acc a (f a)) xs acc) a
  = if decide (a ∈ xs) then Some (f a) else dict_get acc a.
Proof.
  revert acc. induction xs as [|x xs IH]; intros acc; cbn [fold_left].
  - rewrite decide_False by apply not_elem_of_nil. reflexivity.
  - rewrite IH. destruct (decide (a ∈ xs)) as [Hin|Hnin].
    + rewrite decide_True by (apply elem_of_cons; right; exact Hin).
      reflexivity.
    + destruct (decide (x = a)) as [->|Hne].
      * rewrite decide_True by (apply elem_of_cons; left; reflexivity).
        apply dict_get_set_eq.
      * rewrite decide_False
          by (rewrite not_elem_of_cons; split; [congruence|exact Hnin]).
        apply dict_get_set_ne, Hne.
Qed.

Lemma dict_of_keys_get (f : Action -> Q) (xs : list Action) (a : Action) :
  In a xs -> dict_get (dict_of_keys f xs) a = Some (f a).
Proof.
  intros Hin. unfold dict_of_keys. rewrite fold_keys_get.
  apply decide_True, list_elem_of_In, Hin.
Qed.

Lemma average_strategy_get (I : InfoSet) (a : Action) :
  In a (actions I) -> is_Some (dict_get (average_strategy I) a).
Proof.
  intros Hin. unfold average_strategy. cbn zeta.
  destruct (py_gt _ 0); rewrite dict_get_map, (dict_of_keys_get _ _ _ Hin);
    eexists; reflexivity.
Qed.

(** ** One information set *)

Lemma track_actions_spec (I : InfoSet) (avg : dict) (acts : list Action) :
  (forall a, In a acts -> is_Some (dict_get avg a)) ->
  (Forall (covered I) acts <-> (track_actions I avg acts).2 = Ok tt) /\
  ((track_actions I avg acts).2 = Ok tt ->
   length (track_actions I avg acts).1 = length acts) /\
  (forall e, (track_actions I avg acts).2 = Raise e ->
     exists a, e = KeyError a /\ In a acts /\ ~ covered I a).
Proof.
  induction acts as [|a acts IH]; intros Havg.
  - simpl. split; [split; [reflexivity|constructor]|].
    split; [reflexivity|discriminate].
  - destruct IH as (IHiff & IHlen & IHerr).
    { intros b Hb. apply Havg. right. exact Hb. }
    destruct (Havg a) as [v Hv]; [left; reflexivity|].
    cbn [track_actions]. unfold tracker_entry, dict_getitem. rewrite Hv.
    destruct (dict_get (strategy I) a) as [s|] eqn:Es; cbn.
    2:{ split; [split; [|discriminate]|split; [discriminate|]].
        - intros Hall. inversion Hall as [|? ? [[? Hs] _] _]; subst.
          congruence.
        - intros e [= <-]. exists a. split; [reflexivity|].
          split; [left; reflexivity|]. intros [[? Hs] _]. congruence. }
    destruct (dict_get (regret I) a) as [r|] eqn:Er; cbn.
    2:{ split; [split; [|discriminate]|split; [discriminate|]].
        - intros Hall. inversion Hall as [|? ? [_ [? Hr]] _]; subst.
          congruence.
        - intros e [= <-]. exists a. split; [reflexivity|].
          split; [left; reflexivity|]. intros [_ [? Hr]]. congruence. }
    destruct (track_actions I avg acts) as [out res]. cbn in *.
    split; [|split].
    + rewrite <- IHiff. split.
      * intros Hall. inversion Hall; assumption.
      * intros Hall. constructor; [|exact Hall].
        split; eexists; eassumption.
    + intros Hok. rewrite (IHlen Hok). reflexivity.
    + intros e He. destruct (IHerr e He) as (b & -> & Hb & Hcov).
      exists b. split; [reflexivity|]. split; [right; exact Hb|exact Hcov].
Qed.

Lemma track_info_set_spec (I : InfoSet) :
  (covers_actions I <-> (track_info_set I).2 = Ok tt) /\
  ((track_info_set I).2 = Ok tt ->
   length (track_info_set I).1 = length (actions I)) /\
  (forall e, (track_info_set I).2 = Raise e ->
     exists a, e = KeyError a /\ In a (actions I) /\ ~ covered I a).
Proof.
  unfold track_info_set. rewrite get_average_strategy_ok.
  apply track_actions_spec. intros a. apply average_strategy_get.
Qed.

Lemma InfoSet_init_covers (k : string) (acts : list Action) (I : InfoSet) :
  InfoSet_init k acts = Ok I -> covers_actions I.
Proof.
  unfold InfoSet_init. cbn zeta. rewrite calculate_strategy_ok.
  intros [= <-]. unfold covers_actions. cbn [actions set_strategy].
  apply List.Forall_forall. intros a Ha.
  assert (Hr : is_Some (dict_get (dict_of_keys (fun _ => 0) acts) a)).
  { rewrite (dict_of_keys_get _ _ _ Ha). eexists. reflexivity. }
  split; cbn [strategy regret set_strategy]; [|exact Hr].
  apply dict_get_keys. rewrite regret_matching_keys.
  apply dict_get_keys, Hr.
Qed.

(** X7. [InfoSetTracker.__call__] completes exactly when every
    information set has an entry in [strategy] and in [regret] for each of
    its actions, as the objects built by [InfoSet.__init__] have; it then
    has handed [tracker.add] one dictionary per information set and
    action.  Otherwise it stops with the [KeyError] of an action that
    [strategy] or [regret] lacks; the average strategy never causes the
    failure. *)
Theorem InfoSetTracker_call_spec (values : list InfoSet) :
  (Forall covers_actions values <-> (InfoSetTracker_call values).2 = Ok tt) /\
  ((InfoSetTracker_call values).2 = Ok tt ->
   length (InfoSetTracker_call values).1
   = length (concat (map actions values))) /\
  (forall e, (InfoSetTracker_call values).2 = Raise e ->
     exists J a, In J values /\ e = KeyError a /\ In a (actions J) /\
                 ~ covered J a) /\
  (forall k acts J, InfoSet_init k acts = Ok J -> covers_actions J).
Proof.
  split; [|split; [|split; [|apply InfoSet_init_covers]]].
  - induction values as [|J values IH]; cbn [InfoSetTracker_call].
    + split; [reflexivity|constructor].
    + destruct (track_info_set_spec J) as (Hiff & _ & _).
      destruct (track_info_set J) as [out [[]|e]]; cbn in *.
      * destruct (InfoSetTracker_call values) as [out' res]. cbn in *.
        rewrite <- IH. split.
        -- intros Hall. inversion Hall; assumption.
        -- intros Hall. constructor; [apply Hiff; reflexivity|exact Hall].
      * split; [|discriminate]. intros Hall.
        inversion Hall as [|? ? HJ _]; subst.
        apply Hiff in HJ. discriminate.
  - induction values as [|J values IH]; cbn [InfoSetTracker_call];
      [reflexivity|].
    destruct (track_info_set_spec J) as (_ & Hlen & _).
    destruct (track_info_set J) as [out [[]|e]]; cbn in *; [|discriminate].
    destruct (InfoSetTracker_call values) as [out' res]. cbn in *.
    intros Hok. rewrite !length_app, (IH Hok), (Hlen eq_refl). reflexivity.
  - induction values as [|J values IH]; cbn [InfoSetTracker_call];
      [discriminate|].
    destruct (track_info_set_spec J) as (_ & _ & Herr).
    destruct (track_info_set J) as [out [[]|e]]; cbn in *.
    + destruct (InfoSetTracker_call values) as [out' res]. cbn in *.
      intros e He. destruct (IH e He) as (J' & a & HJ' & Hrest).
      exists J', a. split; [right; exact HJ'|exact Hrest].
    + intros e' [= <-]. destruct (Herr e eq_refl) as (a & Hrest).
      exists J, a. split; [left; reflexivity|exact Hrest].
Qed.

(** * Invariants of the tree walker *)

(** ** Rules for engine computations *)

Section Triples.
Context {H : Type} `{History H}.
Variable Inv : CFR -> Prop.
Variable good : nat -> InfoSet -> Prop.
Variable val : Q -> Prop.

Hypothesis Inv_read :
  forall s ref o, Inv s -> objects s !! ref = Some o -> good ref o.
Hypothesis Inv_write :
  forall s ref o,
    Inv s -> good ref o -> Inv (mkCFR (info_sets s) (<[ref := o]> (objects s))).
Hypothesis Inv_alloc :
  forall s (h : H) o,
    Inv s -> new_info_set h = Ok o ->
    Inv (mkCFR (<[info_set_key h := length (objects s)]> (info_sets s))
               (objects s ++ [o])).
Hypothesis good_set_regret :
  forall ref o r, good ref o -> good ref (set_regret o r).
Hypothesis good_set_strategy :
  forall ref o st, good ref o -> good ref (set_strategy o st).
Hypothesis val_zero : val 0.
Hypothesis val_step :
  forall ref o a c v x,
    good ref o -> dict_getitem (cumulative_strategy o) a = Ok c ->
    val v -> val (v + x * c).

Lemma triple_ret {A} (a : A) (Q : A -> Prop) : Q a -> triple Inv (mret a) Q.
Proof.
  intros HQ s r s' HI [= <- <-]. split; [exact HI|]. intros b [= <-]. exact HQ.
Qed.

Lemma triple_lift {A} (x : result A) (Q : A -> Prop) :
  (forall a, x = Ok a -> Q a) -> triple Inv (lift x) Q.
Proof.
  intros HQ s r s' HI [= <- <-]. split; [exact HI|exact HQ].
Qed.

Lemma triple_weaken {A} (m : M A) (Q Q' : A -> Prop) :
  triple Inv m Q -> (forall a, Q a -> Q' a) -> triple Inv m Q'.
Proof.
  intros Hm HQ s r s' HI Hrun. destruct (Hm s r s' HI Hrun) as [HI' Hr].
  split; [exact HI'|]. intros a Ha. apply HQ, Hr, Ha.
Qed.

Lemma triple_bind {A B} (m : M A) (k : A -> M B) (Q1 : A -> Prop)
    (Q2 : B -> Prop) :
  triple Inv m Q1 -> (forall a, Q1 a -> triple Inv (k a) Q2) ->
  triple Inv (m ≫= k) Q2.
Proof.
  intros Hm Hk s r s' HI. unfold mbind, M_bind.
  destruct (m s) as [[[a|e] s1]|] eqn:E; [| |discriminate].
  - destruct (Hm s _ s1 HI E) as [HI1 Ha]. apply (Hk a (Ha a eq_refl)), HI1.
  - intros [= <- <-]. destruct (Hm s _ s1 HI E) as [HI1 _].
    split; [exact HI1|discriminate].
Qed.

Lemma triple_read (ref : nat) : triple Inv (read_obj ref) (good ref).
Proof.
  intros s r s' HI. unfold read_obj.
  destruct (objects s !! ref) as [o|] eqn:E; [|discriminate].
  intros [= <- <-]. split; [exact HI|]. intros a [= <-].
  apply (Inv_read s ref o HI E).
Qed.

Lemma triple_getitem (ref : nat) (field : InfoSet -> dict) (a : Action) :
  triple Inv (obj_getitem ref field a)
         (fun c => exists o, good ref o /\ dict_getitem (field o) a = Ok c).
Proof.
  unfold obj_getitem. apply (triple_bind _ _ (good ref)); [apply triple_read|].
  intros o Ho. apply triple_lift. intros c Hc. exists o. split; assumption.
Qed.

Lemma triple_write (ref : nat) (o : InfoSet) :
  good ref o -> triple Inv (write_obj ref o) (fun _ => True).
Proof.
  intros Ho s r s' HI [= <- <-]. split; [|auto]. apply Inv_write; assumption.
Qed.

Lemma triple_for_each {X St} (L : St -> Prop) (xs : list X)
    (body : X -> St -> M St) (st : St) :
  (forall x st, L st -> triple Inv (body x st) L) ->
  L st -> triple Inv (for_each xs body st) L.
Proof.
  intros Hbody. revert st. induction xs as [|x xs IH]; intros st Hst; simpl.
  - apply triple_ret, Hst.
  - apply (triple_bind _ _ L); [apply Hbody, Hst|exact IH].
Qed.

Lemma triple_get_info_set (h : H) :
  triple Inv (_get_info_set h) (fun _ => True).
Proof.
  intros s r s' HI. unfold _get_info_set.
  destruct (info_sets s !! info_set_key h) as [ref|].
  - intros [= <- <-]. split; [exact HI|auto].
  - destruct (new_info_set h) as [o|e] eqn:E.
    + intros [= <- <-]. split; [|auto]. apply Inv_alloc; assumption.
    + intros [= <- <-]. split; [exact HI|discriminate].
Qed.

(** The update of one action, lines 287 and 288. *)
Lemma triple_update_action (ref : nat) (a : Action) (v_a : dict)
    (v pi_i pi_neg_i : Q) :
  triple Inv
    (o ← read_obj ref;
     r ← lift (dict_getitem (regret o) a);
     x ← lift (dict_getitem v_a a);
     _ ← write_obj ref (set_regret o (dict_set (regret o) a
                                        (r + pi_neg_i * (x - v))));
     o ← read_obj ref;
     s ← lift (dict_getitem (strategy o) a);
     c ← lift (dict_call (cumulative_strategy o) a);
     write_obj ref (set_strategy o (dict_set (strategy o) a (s + pi_i * c))))
    (fun _ => True).
Proof.
  apply (triple_bind _ _ (good ref)); [apply triple_read|]. intros o Ho.
  apply (triple_bind _ _ (fun _ => True)); [apply triple_lift; auto|].
  intros r _.
  apply (triple_bind _ _ (fun _ => True)); [apply triple_lift; auto|].
  intros x _.
  apply (triple_bind _ _ (fun _ => True));
    [apply triple_write, good_set_regret, Ho|].
  intros _ _.
  apply (triple_bind _ _ (good ref)); [apply triple_read|]. intros o' Ho'.
  apply (triple_bind _ _ (fun _ => True)); [apply triple_lift; auto|].
  intros s _.
  apply (triple_bind _ _ (fun _ => True)); [apply triple_lift; auto|].
  intros c _. apply triple_write, good_set_strategy, Ho'.
Qed.

Lemma triple_walk_tree (fuel : nat) (arg : walk_arg H) (i : Player)
    (pi_i pi_neg_i : Q) :
  triple Inv (walk_tree fuel arg i pi_i pi_neg_i) (walk_post val arg).
Proof.
  revert arg i pi_i pi_neg_i.
  induction fuel as [|fuel IH]; intros arg i pi_i pi_neg_i.
  { intros s r s' _ Hrun. discriminate. }
  cbn [walk_tree]. destruct arg as [h|h];
    [|apply triple_lift; discriminate].
  destruct (is_terminal h) eqn:Hterm.
  { apply triple_ret. intros Hf. simpl in Hf. congruence. }
  destruct (is_chance h).
  { eapply triple_weaken; [apply IH|]. intros v []. }
  apply (triple_bind _ _ (fun _ => True)); [apply triple_get_info_set|].
  intros ref _.
  apply (triple_bind _ _ (fun _ => True)).
  { apply (triple_bind _ _ (good ref)); [apply triple_read|].
    intros o _. apply triple_ret. exact Logic.I. }
  intros acts _.
  apply (triple_bind _ _ (fun st => val st.1)).
  { apply triple_for_each; [|exact val_zero].
    intros a [v v_a] Hv. cbv beta iota.
    apply (triple_bind _ _ (fun _ => True)).
    - destruct (player h =? 1)%Z; [|destruct (player h =? 2)%Z].
      + apply (triple_bind _ _ (fun _ => True));
          [eapply triple_weaken; [apply triple_getitem|auto]|].
        intros c _. apply (triple_bind _ _ (fun _ => True));
          [eapply triple_weaken; [apply IH|auto]|].
        intros x _. apply triple_ret. exact Logic.I.
      + apply (triple_bind _ _ (fun _ => True));
          [eapply triple_weaken; [apply triple_getitem|auto]|].
        intros c _. apply (triple_bind _ _ (fun _ => True));
          [eapply triple_weaken; [apply IH|auto]|].
        intros x _. apply triple_ret. exact Logic.I.
      + apply triple_ret. exact Logic.I.
    - intros v_a' _.
      apply (triple_bind _ _ (fun _ => True)); [apply triple_lift; auto|].
      intros x _. eapply triple_bind; [apply triple_getitem|].
      intros c (o & Ho & Hc). apply triple_ret.
      apply (val_step ref o a c v x Ho Hc Hv). }
  intros [v v_a] Hv. cbv beta iota.
  apply (triple_bind _ _ (fun _ => True)).
  - destruct (player h =? i)%Z; [|apply triple_ret; exact Logic.I].
    apply (triple_bind _ _ (fun _ => True)).
    { apply (triple_bind _ _ (good ref)); [apply triple_read|].
      intros o _. apply triple_ret. exact Logic.I. }
    intros acts' _.
    apply (triple_bind _ _ (fun _ => True)).
    { apply triple_for_each; [|exact Logic.I].
      intros a [] _. apply triple_update_action. }
    intros _ _.
    apply (triple_bind _ _ (good ref)); [apply triple_read|]. intros o Ho.
    apply (triple_bind _ _ (good ref)).
    { apply triple_lift. rewrite calculate_strategy_ok.
      intros o' [= <-]. apply good_set_strategy, Ho. }
    intros o' Ho'. apply triple_write, Ho'.
  - intros _ _. apply triple_ret. intros _. exact Hv.
Qed.
End Triples.

(** ** What a walk leaves alone *)

Lemma frame_refl (o : InfoSet) : frame o o.
Proof. repeat split. Qed.

Lemma frames_refl (s : CFR) : frames s s.
Proof.
  split; [lia|]. intros ref o Ho. exists o. split; [exact Ho|apply frame_refl].
Qed.

Section Frame.
Context {H : Type} `{History H}.

Lemma triple_walk_tree_frames (s0 : CFR) (fuel : nat) (arg : walk_arg H)
    (i : Player) (pi_i pi_neg_i : Q) :
  triple (frames s0) (walk_tree fuel arg i pi_i pi_neg_i)
         (walk_post (fun _ => True) arg).
Proof.
  apply triple_walk_tree
    with (good := fun ref o =>
                    forall o0, objects s0 !! ref = Some o0 -> frame o0 o).
  - intros s1 ref o [_ Hs1] Ho o0 Ho0.
    destruct (Hs1 ref o0 Ho0) as (o' & Ho' & Hf). congruence.
  - intros s1 ref o [Hlen Hs1] Ho. split.
    + cbn [objects]. rewrite length_insert. exact Hlen.
    + intros ref' o0 Ho0. cbn [objects].
      destruct (decide (ref = ref')) as [<-|Hne].
      * exists o. split; [|apply Ho, Ho0].
        apply list_lookup_insert_eq. apply lookup_lt_Some in Ho0. lia.
      * rewrite list_lookup_insert_ne by exact Hne. apply Hs1, Ho0.
  - intros s1 h o [Hlen Hs1] _. split.
    + cbn [objects]. rewrite length_app. lia.
    + intros ref o0 Ho0. cbn [objects].
      destruct (Hs1 ref o0 Ho0) as (o' & Ho' & Hf). exists o'.
      split; [apply lookup_app_l_Some, Ho'|exact Hf].
  - intros ref o rg Ho o0 Ho0. apply (Ho o0 Ho0).
  - intros ref o st Ho o0 Ho0. apply (Ho o0 Ho0).
  - exact Logic.I.
  - intros. exact Logic.I.
Qed.

(** X8. A walk, however it ends, removes no object and changes neither the
    key, nor the actions, nor the cumulative strategy of any object that
    existed when it started: the walker never adds anything to a
    cumulative strategy. *)
Theorem walk_tree_frames (fuel : nat) (arg : walk_arg H) (i : Player)
    (pi_i pi_neg_i : Q) (s s' : CFR) (r : result Q) :
  walk_tree fuel arg i pi_i pi_neg_i s = Some (r, s') ->
  (length (objects s) <= length (objects s'))%nat /\
  forall ref o,
    objects s !! ref = Some o ->
    exists o', objects s' !! ref = Some o' /\
               key o' = key o /\ actions o' = actions o /\
               cumulative_strategy o' = cumulative_strategy o.
Proof.
  intros Hrun.
  destruct (triple_walk_tree_frames s fuel arg i pi_i pi_neg_i s r s'
              (frames_refl s) Hrun) as [[Hlen Hobjs] _].
  split; [exact Hlen|]. intros ref o Ho.
  destruct (Hobjs ref o Ho) as (o' & Ho' & Hf). exists o'.
  split; [exact Ho'|exact Hf].
Qed.
End Frame.

(** ** Cumulative strategies that start at zero stay at zero *)

Lemma dict_getitem_value (d : dict) (a : Action) (c : Q) :
  dict_getitem d a = Ok c -> In c (dict_values d).
Proof.
  unfold dict_getitem, dict_values.
  induction d as [|[k y] d IH]; simpl; [discriminate|].
  destruct (String.eqb k a).
  - intros [= <-]. left. reflexivity.
  - intros Hget. right. apply IH, Hget.
Qed.

Lemma zero_cum_nonpositive (o : InfoSet) :
  zero_cum o ->
  Forall (fun x => x <= 0) (dict_values (cumulative_strategy o)).
Proof.
  unfold zero_cum. intros Hz. eapply List.Forall_impl; [|exact Hz].
  intros x Hx. cbn beta in Hx. rewrite Hx. apply Qle_refl.
Qed.

Lemma InfoSet_init_zero_cum (k : string) (acts : list Action) (o : InfoSet) :
  InfoSet_init k acts = Ok o -> zero_cum o.
Proof.
  unfold InfoSet_init. cbn zeta. rewrite calculate_strategy_ok.
  intros [= <-]. unfold zero_cum. cbn [cumulative_strategy set_strategy].
  apply dict_of_keys_values. reflexivity.
Qed.

Lemma tree_new_info_set_zero (t : tree) (o : InfoSet) :
  new_info_set t = Ok o -> zero_cum o.
Proof.
  destruct t; cbn [new_info_set tree_history]; apply InfoSet_init_zero_cum.
Qed.

Section ZeroCum.
Context {H : Type} `{History H}.

Lemma triple_walk_tree_zero (fuel : nat) (arg : walk_arg H) (i : Player)
    (pi_i pi_neg_i : Q) :
  (forall (h : H) o, new_info_set h = Ok o -> zero_cum o) ->
  triple all_zero_cum (walk_tree fuel arg i pi_i pi_neg_i)
         (walk_post (fun v => v == 0) arg).
Proof.
  intros Hnew.
  apply triple_walk_tree with (good := fun _ o => zero_cum o).
  - intros s ref o Hs Ho. apply (Hs ref o Ho).
  - intros s ref o Hs Ho ref' o'. cbn [objects].
    rewrite list_lookup_insert_Some.
    intros [(_ & <- & _)|[_ Ho']]; [exact Ho|apply (Hs ref' o' Ho')].
  - intros s h o Hs Ho ref o'. cbn [objects]. rewrite lookup_snoc_Some.
    intros [[_ Ho']|[_ <-]]; [apply (Hs ref o' Ho')|apply (Hnew h o Ho)].
  - intros ref o rg Ho. exact Ho.
  - intros ref o st Ho. exact Ho.
  - reflexivity.
  - intros ref o a c v x Ho Hc Hv.
    apply dict_getitem_value in Hc. unfold zero_cum in Ho.
    rewrite List.Forall_forall in Ho. rewrite Hv, (Ho c Hc). ring.
Qed.

(** X9. In a game whose information sets are created with an all-zero
    cumulative strategy, as [InfoSet.__init__] creates them, a walk that
    starts from a store of such objects ends, however it ends, in a store
    of such objects.  Whenever it returns from a history that is not
    terminal, the value it returns is 0, and afterwards
    [get_average_strategy] still returns the uniform strategy for every
    object of the store. *)
Theorem walk_tree_learns_nothing (fuel : nat) (arg : walk_arg H)
    (i : Player) (pi_i pi_neg_i : Q) (s s' : CFR) (r : result Q) :
  (forall (h : H) o, new_info_set h = Ok o -> zero_cum o) ->
  all_zero_cum s ->
  walk_tree fuel arg i pi_i pi_neg_i s = Some (r, s') ->
  all_zero_cum s' /\
  (forall h v, arg = AHistory h -> is_terminal h = false ->
               r = Ok v -> v == 0) /\
  (forall ref o,
      objects s' !! ref = Some o ->
      exists avg,
        get_average_strategy o = Ok avg /\
        Forall (fun x => x = 1 / py_len (dict_keys avg)) (dict_values avg)).
Proof.
  intros Hnew Hs Hrun.
  destruct (triple_walk_tree_zero fuel arg i pi_i pi_neg_i Hnew s r s' Hs Hrun)
    as [Hs' Hval].
  split; [exact Hs'|]. split.
  - intros h v -> Hterm ->. apply (Hval v eq_refl Hterm).
  - intros ref o Ho.
    destruct (nonpositive_average_uniform o) as (avg & Havg & Hunif & _).
    { apply zero_cum_nonpositive, (Hs' ref o Ho). }
    exists avg. split; assumption.
Qed.
End ZeroCum.

(** ** How a walk fails at a decision node *)

Lemma bind_Ok {A B} (m : M A) (k : A -> M B) (s s' : CFR) (b : B) :
  (m ≫= k) s = Some (Ok b, s') ->
  exists a s1, m s = Some (Ok a, s1) /\ k a s1 = Some (Ok b, s').
Proof.
  unfold mbind, M_bind.
  destruct (m s) as [[[a|e] s1]|]; [|discriminate|discriminate].
  intros Hk. exists a, s1. split; [reflexivity|exact Hk].
Qed.

Lemma bind_run {A B} (m : M A) (k : A -> M B) (s : CFR) :
  (m ≫= k) s
  = match m s with
    | None => None
    | Some (Ok a, s') => k a s'
    | Some (Raise e, s') => Some (Raise e, s')
    end.
Proof. reflexivity. Qed.

Lemma read_obj_Ok (ref : nat) (s s' : CFR) (o : InfoSet) :
  read_obj ref s = Some (Ok o, s') -> s' = s /\ objects s !! ref = Some o.
Proof.
  unfold read_obj. destruct (objects s !! ref); [|discriminate].
  intros [= <- <-]. split; reflexivity.
Qed.

Lemma lift_Ok {A} (x : result A) (s s' : CFR) (a : A) :
  lift x s = Some (Ok a, s') -> s' = s /\ x = Ok a.
Proof. intros [= -> <-]. split; reflexivity. Qed.

(** The update of one action never completes: once the regret is stored,
    the call of the dictionary [cumulative_strategy] raises. *)
Lemma update_action_never_returns (ref : nat) (a : Action) (v_a : dict)
    (v pi_i pi_neg_i : Q) (s s' : CFR) (u : unit) :
  (o ← read_obj ref;
   r ← lift (dict_getitem (regret o) a);
   x ← lift (dict_getitem v_a a);
   _ ← write_obj ref (set_regret o (dict_set (regret o) a
                                      (r + pi_neg_i * (x - v))));
   o ← read_obj ref;
   s ← lift (dict_getitem (strategy o) a);
   c ← lift (dict_call (cumulative_strategy o) a);
   write_obj ref (set_strategy o (dict_set (strategy o) a (s + pi_i * c))))
    s <> Some (Ok u, s').
Proof.
  intros Hrun.
  apply bind_Ok in Hrun as (o & s1 & _ & Hrun).
  apply bind_Ok in Hrun as (r & s2 & _ & Hrun).
  apply bind_Ok in Hrun as (x & s3 & _ & Hrun).
  apply bind_Ok in Hrun as (u1 & s4 & _ & Hrun).
  apply bind_Ok in Hrun as (o' & s5 & _ & Hrun).
  apply bind_Ok in Hrun as (st & s6 & _ & Hrun).
  apply bind_Ok in Hrun as (c & s7 & Hcall & _).
  apply lift_Ok in Hcall as [_ Hcall]. discriminate.
Qed.

(** The update of lines 285 to 290 completes only when the information
    set has no action. *)
Lemma update_block_Ok (ref : nat) (v_a : dict) (v pi_i pi_neg_i : Q)
    (s3 s4 : CFR) (u : unit) :
  (acts ← (o ← read_obj ref; mret (actions o));
   _ ← for_each acts (fun a (_ : unit) =>
         o ← read_obj ref;
         r ← lift (dict_getitem (regret o) a);
         x ← lift (dict_getitem v_a a);
         _ ← write_obj ref (set_regret o (dict_set (regret o) a
                                            (r + pi_neg_i * (x - v))));
         o ← read_obj ref;
         s ← lift (dict_getitem (strategy o) a);
         c ← lift (dict_call (cumulative_strategy o) a);
         write_obj ref (set_strategy o (dict_set (strategy o) a
                                          (s + pi_i * c)))) tt;
   o ← read_obj ref;
   o' ← lift (calculate_strategy o);
   write_obj ref o') s3 = Some (Ok u, s4) ->
  info_sets s4 = info_sets s3 /\
  exists o, objects s4 !! ref = Some o /\ actions o = [].
Proof.
  intros Hrun.
  apply bind_Ok in Hrun as (acts & s & Hacts & Hrun).
  apply bind_Ok in Hacts as (oA & sA & Hread & Hret).
  apply read_obj_Ok in Hread as [-> HoA].
  injection Hret as <- <-.
  apply bind_Ok in Hrun as (u1 & s5 & Hloop & Hrun).
  destruct (actions oA) as [|a rest] eqn:Hacts.
  - injection Hloop as _ <-.
    apply bind_Ok in Hrun as (o & s6 & Hread & Hrun).
    apply read_obj_Ok in Hread as [-> Ho].
    apply bind_Ok in Hrun as (o' & s7 & Hcalc & Hrun).
    apply lift_Ok in Hcalc as [-> Hcalc].
    rewrite calculate_strategy_ok in Hcalc. injection Hcalc as <-.
    injection Hrun as _ <-. split; [reflexivity|].
    eexists. cbn [objects]. split.
    + apply list_lookup_insert_eq. apply lookup_lt_Some in Ho. exact Ho.
    + cbn [actions set_strategy]. congruence.
  - exfalso. cbn [for_each] in Hloop.
    apply bind_Ok in Hloop as (u2 & s6 & Hbody & _).
    apply update_action_never_returns in Hbody. exact Hbody.
Qed.

Section DecisionNodes.
Context {H : Type} `{History H}.

Lemma walk_tree_no_branch (n : nat) (h : H) (i : Player)
    (pi_i pi_neg_i : Q) (s s1 : CFR) (ref : nat) (o : InfoSet)
    (a : Action) (rest : list Action) :
  is_terminal h = false ->
  is_chance h = false ->
  player h <> 1%Z ->
  player h <> 2%Z ->
  _get_info_set h s = Some (Ok ref, s1) ->
  objects s1 !! ref = Some o ->
  actions o = a :: rest ->
  walk_tree (S n) (AHistory h) i pi_i pi_neg_i s
  = Some (Raise (KeyError a), s1).
Proof.
  intros Hterm Hchance H1 H2 Hget Hobj Hacts.
  cbn [walk_tree]. rewrite Hterm, Hchance.
  apply Z.eqb_neq in H1, H2. rewrite H1, H2.
  rewrite bind_run, Hget. rewrite bind_run.
  unfold read_obj at 1. rewrite bind_run, Hobj. cbn [mret M_ret].
  rewrite Hacts. rewrite bind_run. cbn [for_each].
  reflexivity.
Qed.

(** X10. At a decision node whose player is neither 1 nor 2 (player 0,
    for one, with whom the training loop starts) and whose information
    set has at least one action, the walk raises [KeyError] for the first
    action: no child is visited, and the store is the one the lookup of
    the information set left. *)
Theorem walk_tree_other_player (n : nat) (h : H) (i : Player)
    (pi_i pi_neg_i : Q) (s s1 : CFR) (ref : nat) (o : InfoSet)
    (a : Action) (rest : list Action) :
  is_terminal h = false ->
  is_chance h = false ->
  player h <> 1%Z ->
  player h <> 2%Z ->
  _get_info_set h s = Some (Ok ref, s1) ->
  objects s1 !! ref = Some o ->
  actions o = a :: rest ->
  walk_tree (S n) (AHistory h) i pi_i pi_neg_i s
  = Some (Raise (KeyError a), s1).
Proof.
  intros Hterm Hchance H1 H2 Hget Hobj Hacts.
  exact (walk_tree_no_branch n h i pi_i pi_neg_i s s1 ref o a rest
           Hterm Hchance H1 H2 Hget Hobj Hacts).
Qed.

Lemma walk_tree_restart (n : nat) (h : H) (i : Player) (pi_i pi_neg_i : Q)
    (s s1 : CFR) (ref : nat) :
  is_terminal h = false ->
  is_chance h = false ->
  _get_info_set h s = Some (Ok ref, s1) ->
  walk_tree (S n) (AHistory h) i pi_i pi_neg_i s
  = walk_tree (S n) (AHistory h) i pi_i pi_neg_i s1.
Proof.
  intros Hterm Hchance Hget. cbn [walk_tree]. rewrite Hterm, Hchance.
  rewrite !bind_run, Hget.
  rewrite (get_info_set_present h s1 ref (get_info_set_bound h s s1 ref Hget)).
  reflexivity.
Qed.

Lemma walk_tree_own_node_inv (fuel : nat) (h : H) (i : Player)
    (pi_i pi_neg_i : Q) (s s' : CFR) (v : Q) :
  walk_tree fuel (AHistory h) i pi_i pi_neg_i s = Some (Ok v, s') ->
  is_terminal h = false ->
  player h = i ->
  exists ref o,
    info_sets s' !! info_set_key h = Some ref /\
    objects s' !! ref = Some o /\
    actions o = [].
Proof.
  intros Hrun Hterm Hplayer.
  destruct fuel as [|fuel]; [discriminate|].
  destruct (is_chance h) eqn:Hchance.
  { cbn [walk_tree] in Hrun. rewrite Hterm, Hchance in Hrun.
    destruct fuel; discriminate. }
  pose proof Hrun as Hrest.
  cbn [walk_tree] in Hrest. rewrite Hterm, Hchance in Hrest.
  apply bind_Ok in Hrest as (ref & s1 & Hget & Hrest).
  rewrite (walk_tree_restart _ _ _ _ _ _ _ _ Hterm Hchance Hget) in Hrun.
  destruct (keeps_walk_tree _ _ _ _ _ _ _ _ Hrun) as [Hkept _].
  apply bind_Ok in Hrest as (acts & s2 & _ & Hrest).
  apply bind_Ok in Hrest as ([v0 v_a] & s3 & _ & Hrest).
  cbv beta iota in Hrest.
  apply bind_Ok in Hrest as (u & s4 & Hupd & Hret).
  injection Hret as _ <-.
  rewrite Hplayer, Z.eqb_refl in Hupd.
  apply update_block_Ok in Hupd as (_ & o & Ho & Hacts).
  exists ref, o. split; [|split; assumption].
  apply Hkept. eapply get_info_set_bound, Hget.
Qed.

(** X11. A walk returns a value from a decision node of the updating
    player only when the information set of that node has no action.
    With at least one action the update of the first one raises, so the
    walk of such a node never returns. *)
Theorem walk_tree_own_node (fuel : nat) (h : H) (i : Player)
    (pi_i pi_neg_i : Q) (s s' : CFR) (v : Q) :
  walk_tree fuel (AHistory h) i pi_i pi_neg_i s = Some (Ok v, s') ->
  is_terminal h = false ->
  player h = i ->
  exists ref o,
    info_sets s' !! info_set_key h = Some ref /\
    objects s' !! ref = Some o /\
    actions o = [].
Proof.
  intros Hrun Hterm Hplayer.
  destruct (walk_tree_own_node_inv fuel h i pi_i pi_neg_i s s' v
              Hrun Hterm Hplayer) as (ref & o & Hkey & Ho & Hacts).
  exists ref, o. split; [exact Hkey|]. split; [exact Ho|exact Hacts].
Qed.
End DecisionNodes.

(** * The training loop *)

Lemma keeps_observe (observe : nat -> CFR -> result unit) (t : nat) :
  keeps stable (observe_step observe t).
Proof. intros s r s' [= _ <-]. apply stable_refl. Qed.

Lemma triple_observe (Inv : CFR -> Prop)
    (observe : nat -> CFR -> result unit) (t : nat) :
  triple Inv (observe_step observe t) (fun _ => True).
Proof. intros s r s' HI [= _ <-]. split; [exact HI|auto]. Qed.

Section Training.
Context {H : Type} `{History H}.
Variable observe : nat -> CFR -> result unit.

Lemma keeps_iterate (fuel : nat) (h0 : H) (epochs n_players : nat) :
  keeps stable (iterate observe fuel h0 epochs n_players).
Proof.
  unfold iterate. apply keeps_bind; [|intros; apply keeps_ret].
  apply keeps_for_each. intros t [].
  apply keeps_bind; [|intros; apply keeps_observe].
  apply keeps_for_each. intros i [].
  apply keeps_bind; [apply keeps_walk_tree|intros; apply keeps_ret].
Qed.

(** An invariant that every walk keeps is kept by the training loop. *)
Lemma triple_iterate (Inv : CFR -> Prop) (fuel : nat) (h0 : H)
    (epochs n_players : nat) :
  (forall arg i pi_i pi_neg_i,
      triple Inv (walk_tree fuel arg i pi_i pi_neg_i) (fun _ => True)) ->
  triple Inv (iterate observe fuel h0 epochs n_players) (fun _ => True).
Proof.
  intros Hwalk. unfold iterate.
  apply (triple_bind _ _ _ (fun _ => True));
    [|intros; apply triple_ret; exact Logic.I].
  apply triple_for_each; [|exact Logic.I]. intros t [] _.
  apply (triple_bind _ _ _ (fun _ => True));
    [|intros; apply triple_observe].
  apply triple_for_each; [|exact Logic.I]. intros i [] _.
  apply (triple_bind _ _ _ (fun _ => True));
    [apply Hwalk|intros; apply triple_ret; exact Logic.I].
Qed.

Lemma triple_walk_tree_actions (fuel : nat) (arg : walk_arg H) (i : Player)
    (pi_i pi_neg_i : Q) :
  (forall (h : H) o, new_info_set h = Ok o -> actions o <> []) ->
  triple all_have_actions (walk_tree fuel arg i pi_i pi_neg_i)
         (fun _ => True).
Proof.
  intros Hnew.
  apply triple_weaken with (Q := walk_post (fun _ => True) arg); [|auto].
  apply triple_walk_tree with (good := fun _ o => actions o <> []).
  - intros s ref o Hs Ho. apply (Hs ref o Ho).
  - intros s ref o Hs Ho ref' o'. cbn [objects].
    rewrite list_lookup_insert_Some.
    intros [(_ & <- & _)|[_ Ho']]; [exact Ho|apply (Hs ref' o' Ho')].
  - intros s h o Hs Ho ref o'. cbn [objects]. rewrite lookup_snoc_Some.
    intros [[_ Ho']|[_ <-]]; [apply (Hs ref o' Ho')|apply (Hnew h o Ho)].
  - intros ref o rg Ho. exact Ho.
  - intros ref o st Ho. exact Ho.
  - exact Logic.I.
  - intros. exact Logic.I.
Qed.

(** X12. Whatever the tracker and the checkpoint do and however the
    training loop ends, it keeps every binding of the store, keeps each key
    on one object of its own, removes no object and changes neither the
    key, nor the actions, nor the cumulative strategy of an object.  In a
    game whose information sets are created with an all-zero cumulative
    strategy the cumulative strategies are therefore still all zero after
    training, and [get_average_strategy] returns the uniform strategy for
    every information set. *)
Theorem iterate_keeps_store (fuel : nat) (h0 : H) (epochs n_players : nat)
    (s s' : CFR) (r : result unit) :
  iterate observe fuel h0 epochs n_players s = Some (r, s') ->
  bindings_kept s s' /\
  (one_instance_per_key s -> one_instance_per_key s') /\
  frames s s' /\
  ((forall (h : H) o, new_info_set h = Ok o -> zero_cum o) ->
   all_zero_cum s ->
   all_zero_cum s' /\
   forall ref o,
     objects s' !! ref = Some o ->
     exists avg,
       get_average_strategy o = Ok avg /\
       Forall (fun x => x = 1 / py_len (dict_keys avg)) (dict_values avg)).
Proof.
  intros Hrun.
  destruct (keeps_iterate _ _ _ _ _ _ _ Hrun) as [Hkept Hone].
  split; [exact Hkept|]. split; [exact Hone|]. split.
  - eapply (triple_iterate (frames s)); [|apply frames_refl|exact Hrun].
    intros arg i pi_i pi_neg_i.
    eapply triple_weaken; [apply triple_walk_tree_frames|auto].
  - intros Hnew Hzero.
    assert (Hzero' : all_zero_cum s').
    { eapply (triple_iterate all_zero_cum); [|exact Hzero|exact Hrun].
      intros arg i pi_i pi_neg_i.
      eapply triple_weaken; [apply triple_walk_tree_zero, Hnew|auto]. }
    split; [exact Hzero'|]. intros ref o Ho.
    destruct (nonpositive_average_uniform o) as (avg & Havg & Hunif & _).
    { apply zero_cum_nonpositive, (Hzero' ref o Ho). }
    exists avg. split; assumption.
Qed.
End Training.

(** ** Games on which training cannot complete *)

Section TrainingFails.
Context {H : Type} `{History H}.
Variable observe : nat -> CFR -> result unit.

Lemma walk_tree_chance_never_returns (fuel : nat) (h : H) (i : Player)
    (pi_i pi_neg_i : Q) (s s' : CFR) (v : Q) :
  is_terminal h = false ->
  is_chance h = true ->
  walk_tree fuel (AHistory h) i pi_i pi_neg_i s <> Some (Ok v, s').
Proof.
  intros Hterm Hchance. destruct fuel as [|fuel]; [discriminate|].
  cbn [walk_tree]. rewrite Hterm, Hchance. destruct fuel; discriminate.
Qed.

(** X13. On a game that starts with a chance event, training for at least
    one round and one player fails in its first walk: [iterate] raises
    [AttributeError] and the store is as it was; no information set is
    ever created and the tracker is never called. *)
Theorem iterate_chance_root (n : nat) (h0 : H) (epochs n_players : nat)
    (s : CFR) :
  is_terminal h0 = false ->
  is_chance h0 = true ->
  (0 < epochs)%nat ->
  (0 < n_players)%nat ->
  iterate observe (S (S n)) h0 epochs n_players s
  = Some (Raise AttributeError, s).
Proof.
  intros Hterm Hchance He Hp.
  destruct epochs as [|e]; [lia|]. destruct n_players as [|m]; [lia|].
  unfold iterate. cbn [seq for_each]. rewrite !bind_run.
  rewrite (walk_tree_chance n h0 _ _ _ s Hterm Hchance). reflexivity.
Qed.

Lemma iterate_first_round (fuel : nat) (h0 : H) (e m : nat) (s s' : CFR)
    (u : unit) :
  iterate observe fuel h0 (S e) (S (S m)) s = Some (Ok u, s') ->
  exists v0 v1 s0 s1,
    walk_tree fuel (AHistory h0) 0%Z 1 1 s = Some (Ok v0, s0) /\
    walk_tree fuel (AHistory h0) 1%Z 1 1 s0 = Some (Ok v1, s1).
Proof.
  unfold iterate. cbn [seq for_each]. intros Hrun.
  apply bind_Ok in Hrun as (u1 & s1 & Hrun & _).
  apply bind_Ok in Hrun as (u2 & s2 & Hrun & _).
  apply bind_Ok in Hrun as (u3 & s3 & Hrun & _).
  apply bind_Ok in Hrun as (u4 & s4 & Hw0 & Hrun).
  apply bind_Ok in Hw0 as (v0 & s5 & Hw0 & Hret). injection Hret as _ <-.
  apply bind_Ok in Hrun as (u5 & s6 & Hw1 & _).
  apply bind_Ok in Hw1 as (v1 & s7 & Hw1 & _).
  exists v0, v1, s5, s7. split; assumption.
Qed.

(** X14. In a game whose information sets all have at least one action,
    training from the empty store for at least one round with at least
    two players completes only if the game is over before it starts or
    its first decision belongs to player 2.  When the first move is a
    chance event or belongs to any other player, [iterate] never returns
    normally. *)
Theorem iterate_returns_only_for_player_2 (fuel : nat) (h0 : H)
    (epochs n_players : nat) (s' : CFR) (u : unit) :
  (forall (h : H) o, new_info_set h = Ok o -> actions o <> []) ->
  (0 < epochs)%nat ->
  (1 < n_players)%nat ->
  iterate observe fuel h0 epochs n_players CFR_init = Some (Ok u, s') ->
  is_terminal h0 = true \/
  (is_terminal h0 = false /\ is_chance h0 = false /\ player h0 = 2%Z).
Proof.
  intros Hnew He Hp Hrun.
  destruct epochs as [|e]; [lia|].
  destruct n_players as [|[|m]]; [lia|lia|].
  apply iterate_first_round in Hrun as (v0 & v1 & s0 & s1 & Hw0 & Hw1).
  destruct (is_terminal h0) eqn:Hterm; [left; reflexivity|right].
  split; [reflexivity|].
  destruct (is_chance h0) eqn:Hchance.
  { exfalso. exact (walk_tree_chance_never_returns _ _ _ _ _ _ _ _
                      Hterm Hchance Hw0). }
  split; [reflexivity|].
  destruct (decide (player h0 = 2%Z)) as [H2|H2]; [exact H2|exfalso].
  destruct (decide (player h0 = 1%Z)) as [H1|H1].
  - assert (Hinit : all_have_actions CFR_init).
    { intros ref o Ho. discriminate. }
    destruct (triple_walk_tree_actions _ _ _ _ _ Hnew _ _ _ Hinit Hw0)
      as [Hs0 _].
    destruct (triple_walk_tree_actions _ _ _ _ _ Hnew _ _ _ Hs0 Hw1)
      as [Hs1 _].
    destruct (walk_tree_own_node_inv _ _ _ _ _ _ _ _ Hw1 Hterm H1)
      as (ref & o & _ & Ho & Hacts).
    apply (Hs1 ref o Ho Hacts).
  - destruct fuel as [|fuel]; [discriminate|].
    pose proof Hw0 as Hrest.
    cbn [walk_tree] in Hrest. rewrite Hterm, Hchance in Hrest.
    apply bind_Ok in Hrest as (ref & sa & Hget & _).
    pose proof Hget as Halloc. unfold _get_info_set in Halloc.
    cbn [info_sets CFR_init] in Halloc. rewrite lookup_empty in Halloc.
    destruct (new_info_set h0) as [o|err] eqn:Ho; [|discriminate].
    injection Halloc as <- <-.
    destruct (actions o) as [|a rest] eqn:Hacts;
      [exact (Hnew h0 o Ho Hacts)|].
    rewrite (walk_tree_no_branch fuel h0 0%Z 1 1 CFR_init _ _ o a rest
               Hterm Hchance H1 H2 Hget eq_refl Hacts) in Hw0.
    discriminate.
Qed.
End TrainingFails.

(** * What a walk can change *)

Lemma only_first_regret_refl (o : InfoSet) : only_first_regret o o.
Proof. split; [apply frame_refl|]. intros a rest _. split; reflexivity. Qed.

Lemma touched_refl (s : CFR) : touched s s.
Proof.
  split; [lia|]. intros ref o Ho. exists o.
  split; [exact Ho|apply only_first_regret_refl].
Qed.

Lemma update_action_run (ref : nat) (a : Action) (v_a : dict)
    (v pi_i pi_neg_i : Q) (s s' : CFR) (r : result unit) (oA : InfoSet) :
  objects s !! ref = Some oA ->
  (o ← read_obj ref;
   r ← lift (dict_getitem (regret o) a);
   x ← lift (dict_getitem v_a a);
   _ ← write_obj ref (set_regret o (dict_set (regret o) a
                                      (r + pi_neg_i * (x - v))));
   o ← read_obj ref;
   s ← lift (dict_getitem (strategy o) a);
   c ← lift (dict_call (cumulative_strategy o) a);
   write_obj ref (set_strategy o (dict_set (strategy o) a (s + pi_i * c))))
    s = Some (r, s') ->
  (exists e, r = Raise e) /\
  (s' = s \/
   exists x0, s' = mkCFR (info_sets s)
                         (<[ref := set_regret oA (dict_set (regret oA) a x0)]>
                            (objects s))).
Proof.
  intros HoA. rewrite bind_run. unfold read_obj at 1. rewrite HoA.
  rewrite bind_run. unfold lift at 1.
  destruct (dict_getitem (regret oA) a) as [r0|e].
  2:{ intros [= <- <-]. split; [eexists; reflexivity|left; reflexivity]. }
  rewrite bind_run. unfold lift at 1.
  destruct (dict_getitem v_a a) as [x|e].
  2:{ intros [= <- <-]. split; [eexists; reflexivity|left; reflexivity]. }
  rewrite bind_run. unfold write_obj at 1.
  rewrite bind_run. unfold read_obj at 1. cbn [objects].
  rewrite list_lookup_insert_eq by (apply lookup_lt_Some in HoA; exact HoA).
  rewrite bind_run. unfold lift at 1. cbn [strategy set_regret].
  destruct (dict_getitem (strategy oA) a) as [st|e].
  2:{ intros [= <- <-]. split; [eexists; reflexivity|right].
      eexists. reflexivity. }
  rewrite bind_run. unfold lift at 1, dict_call.
  intros [= <- <-]. split; [eexists; reflexivity|right].
  eexists. reflexivity.
Qed.

Lemma only_first_regret_update (o0 o : InfoSet) (a : Action)
    (rest : list Action) (x : Q) :
  actions o = a :: rest ->
  only_first_regret o0 o ->
  only_first_regret o0 (set_regret o (dict_set (regret o) a x)).
Proof.
  intros Hacts [(Hk & Ha & Hc) Hfirst]. split; [repeat split; assumption|].
  intros b rest' Hb. destruct (Hfirst b rest' Hb) as [Hst Hreg].
  split; [exact Hst|]. intros c Hc'. cbn [regret set_regret].
  rewrite <- (Hreg c Hc'). apply dict_get_set_ne.
  cbn [actions] in Ha. rewrite <- Ha, Hacts in Hb.
  injection Hb as <- _. congruence.
Qed.

Lemma only_first_regret_recompute (o0 o : InfoSet) (st : dict) :
  actions o = [] ->
  only_first_regret o0 o ->
  only_first_regret o0 (set_strategy o st).
Proof.
  intros Hacts [(Hk & Ha & Hc) Hfirst]. split; [repeat split; assumption|].
  intros b rest' Hb. cbn [actions] in Ha. rewrite <- Ha, Hacts in Hb.
  discriminate.
Qed.

Section WalkUpdates.
Context {H : Type} `{History H}.
Variable Inv : CFR -> Prop.

Hypothesis Inv_alloc :
  forall s (h : H) o,
    Inv s -> new_info_set h = Ok o ->
    Inv (mkCFR (<[info_set_key h := length (objects s)]> (info_sets s))
               (objects s ++ [o])).
Hypothesis Inv_step :
  forall s ref o o',
    Inv s -> objects s !! ref = Some o ->
    (forall o0, only_first_regret o0 o -> only_first_regret o0 o') ->
    Inv (mkCFR (info_sets s) (<[ref := o']> (objects s))).

Lemma triple_pure {A} (m : M A) :
  (forall s r s', m s = Some (r, s') -> s' = s) ->
  triple Inv m (fun _ => True).
Proof.
  intros Hm s r s' HI Hrun. rewrite (Hm s r s' Hrun). split; [exact HI|auto].
Qed.

Lemma triple_pure_read (ref : nat) :
  triple Inv (read_obj ref) (fun _ => True).
Proof.
  apply triple_pure. intros s r s'. unfold read_obj.
  destruct (objects s !! ref); [|discriminate]. intros [= _ <-]. reflexivity.
Qed.

Lemma triple_pure_getitem (ref : nat) (field : InfoSet -> dict)
    (a : Action) :
  triple Inv (obj_getitem ref field a) (fun _ => True).
Proof.
  apply triple_pure. intros s r s'. unfold obj_getitem, read_obj.
  rewrite bind_run. destruct (objects s !! ref); [|discriminate].
  intros [= _ <-]. reflexivity.
Qed.

Lemma triple_pure_lift {A} (x : result A) :
  triple Inv (lift x) (fun _ => True).
Proof. apply triple_pure. intros s r s' [= _ <-]. reflexivity. Qed.

Lemma triple_update_block (ref : nat) (v_a : dict) (v pi_i pi_neg_i : Q) :
  triple Inv (update_block ref v_a v pi_i pi_neg_i) (fun _ => True).
Proof.
  intros s r s' HI Hrun. split; [|auto].
  unfold update_block in Hrun. rewrite bind_run in Hrun.
  rewrite bind_run in Hrun. unfold read_obj at 1 in Hrun.
  destruct (objects s !! ref) as [oA|] eqn:HoA; [|discriminate].
  cbn [mret M_ret] in Hrun. rewrite bind_run in Hrun.
  destruct (actions oA) as [|a rest] eqn:Hacts.
  - cbn [for_each mret M_ret] in Hrun. rewrite bind_run in Hrun.
    unfold read_obj at 1 in Hrun. rewrite HoA in Hrun.
    rewrite bind_run in Hrun. unfold lift at 1 in Hrun.
    rewrite calculate_strategy_ok in Hrun. injection Hrun as _ <-.
    apply (Inv_step s ref oA); [exact HI|exact HoA|].
    intros o0. apply only_first_regret_recompute, Hacts.
  - cbn [for_each] in Hrun. rewrite bind_run in Hrun.
    match type of Hrun with
    | match match ?body with _ => _ end with _ => _ end = _ =>
        destruct body as [[res s1]|] eqn:Hbody; [|discriminate]
    end.
    apply (update_action_run _ _ _ _ _ _ _ _ _ oA HoA) in Hbody
      as [[e ->] Hs1].
    injection Hrun as _ <-.
    destruct Hs1 as [->|[x0 ->]]; [exact HI|].
    apply (Inv_step s ref oA); [exact HI|exact HoA|].
    intros o0. apply (only_first_regret_update o0 oA a rest x0 Hacts).
Qed.

Lemma triple_alloc (h : H) : triple Inv (_get_info_set h) (fun _ => True).
Proof.
  intros s r s' HI. unfold _get_info_set.
  destruct (info_sets s !! info_set_key h) as [ref|].
  - intros [= <- <-]. split; [exact HI|auto].
  - destruct (new_info_set h) as [o|e] eqn:E.
    + intros [= <- <-]. split; [|auto]. apply Inv_alloc; assumption.
    + intros [= <- <-]. split; [exact HI|discriminate].
Qed.

Lemma triple_walk_tree_updates (fuel : nat) (arg : walk_arg H) (i : Player)
    (pi_i pi_neg_i : Q) :
  triple Inv (walk_tree fuel arg i pi_i pi_neg_i) (fun _ => True).
Proof.
  revert arg i pi_i pi_neg_i.
  induction fuel as [|fuel IH]; intros arg i pi_i pi_neg_i.
  { intros s r s' _ Hrun. discriminate. }
  cbn [walk_tree]. destruct arg as [h|h]; [|apply triple_pure_lift].
  destruct (is_terminal h); [apply triple_ret; exact Logic.I|].
  destruct (is_chance h); [apply IH|].
  apply (triple_bind _ _ _ (fun _ => True)); [apply triple_alloc|].
  intros ref _.
  apply (triple_bind _ _ _ (fun _ => True)).
  { apply (triple_bind _ _ _ (fun _ => True)); [apply triple_pure_read|].
    intros o _. apply triple_ret. exact Logic.I. }
  intros acts _.
  apply (triple_bind _ _ _ (fun _ => True)).
  { apply triple_for_each; [|exact Logic.I].
    intros a [v v_a] _. cbv beta iota.
    apply (triple_bind _ _ _ (fun _ => True)).
    - destruct (player h =? 1)%Z; [|destruct (player h =? 2)%Z].
      + apply (triple_bind _ _ _ (fun _ => True));
          [apply triple_pure_getitem|].
        intros c _. apply (triple_bind _ _ _ (fun _ => True)); [apply IH|].
        intros x _. apply triple_ret. exact Logic.I.
      + apply (triple_bind _ _ _ (fun _ => True));
          [apply triple_pure_getitem|].
        intros c _. apply (triple_bind _ _ _ (fun _ => True)); [apply IH|].
        intros x _. apply triple_ret. exact Logic.I.
      + apply triple_ret. exact Logic.I.
    - intros v_a' _.
      apply (triple_bind _ _ _ (fun _ => True)); [apply triple_pure_lift|].
      intros x _.
      apply (triple_bind _ _ _ (fun _ => True));
        [apply triple_pure_getitem|].
      intros c _. apply triple_ret. exact Logic.I. }
  intros [v v_a] _. cbv beta iota.
  apply (triple_bind _ _ _ (fun _ => True));
    [|intros; apply triple_ret; exact Logic.I].
  destruct (player h =? i)%Z; [|apply triple_ret; exact Logic.I].
  apply (triple_update_block ref v_a v pi_i pi_neg_i).
Qed.
End WalkUpdates.

Section Touched.
Context {H : Type} `{History H}.
Variable observe : nat -> CFR -> result unit.

Lemma triple_walk_tree_touched (s0 : CFR) (fuel : nat) (arg : walk_arg H)
    (i : Player) (pi_i pi_neg_i : Q) :
  triple (touched s0) (walk_tree fuel arg i pi_i pi_neg_i) (fun _ => True).
Proof.
  apply triple_walk_tree_updates.
  - intros s h o [Hlen Hobjs] _. split.
    + cbn [objects]. rewrite length_app. lia.
    + intros ref o0 Ho0. cbn [objects].
      destruct (Hobjs ref o0 Ho0) as (o' & Ho' & Hrel). exists o'.
      split; [apply lookup_app_l_Some, Ho'|exact Hrel].
  - intros s ref o o' [Hlen Hobjs] Ho Hstep. split.
    + cbn [objects]. rewrite length_insert. exact Hlen.
    + intros ref' o0 Ho0. cbn [objects].
      destruct (Hobjs ref' o0 Ho0) as (o1 & Ho1 & Hrel).
      destruct (decide (ref = ref')) as [<-|Hne].
      * exists o'. split.
        -- apply list_lookup_insert_eq. apply lookup_lt_Some in Ho. exact Ho.
        -- apply Hstep. congruence.
      * exists o1. split; [|exact Hrel].
        rewrite list_lookup_insert_ne by exact Hne. exact Ho1.
Qed.

(** X15. In a store built from the empty store by lookups and walks,
    where every object comes from [new_info_set] and dictionaries are
    not shared between objects, a walk, however it ends, changes of an
    object that has at least one action at most the regret of the first
    action: the strategy is the one the object had, and so is the regret
    of every other action.  The strategy of such an information set is
    never recomputed. *)
Theorem walk_tree_changes_first_regret_only (fuel : nat) (arg : walk_arg H)
    (i : Player) (pi_i pi_neg_i : Q) (s s' : CFR) (r : result Q) :
  rtc step CFR_init s ->
  walk_tree fuel arg i pi_i pi_neg_i s = Some (r, s') ->
  forall ref o a rest,
    objects s !! ref = Some o ->
    actions o = a :: rest ->
    exists o',
      objects s' !! ref = Some o' /\
      strategy o' = strategy o /\
      forall b, b <> a -> dict_get (regret o') b = dict_get (regret o) b.
Proof.
  intros _ Hrun ref o a rest Ho Hacts.
  destruct (triple_walk_tree_touched s fuel arg i pi_i pi_neg_i s r s'
              (touched_refl s) Hrun) as [[_ Hobjs] _].
  destruct (Hobjs ref o Ho) as (o' & Ho' & _ & Hfirst).
  exists o'. split; [exact Ho'|]. apply (Hfirst a rest Hacts).
Qed.

Lemma triple_walk_tree_pristine (fuel : nat) (arg : walk_arg H)
    (i : Player) (pi_i pi_neg_i : Q) :
  triple all_pristine (walk_tree fuel arg i pi_i pi_neg_i) (fun _ => True).
Proof.
  apply triple_walk_tree_updates.
  - intros s h o Hs Ho ref o'. cbn [objects]. rewrite lookup_snoc_Some.
    intros [[_ Ho']|[_ <-]]; [apply (Hs ref o' Ho')|].
    exists h, o. split; [exact Ho|apply only_first_regret_refl].
  - intros s ref o o' Hs Ho Hstep ref' o1. cbn [objects].
    rewrite list_lookup_insert_Some.
    intros [(<- & <- & _)|[_ Ho1]]; [|apply (Hs ref' o1 Ho1)].
    destruct (Hs ref o Ho) as (h & o_init & Hnew & Hrel).
    exists h, o_init. split; [exact Hnew|apply Hstep, Hrel].
Qed.

(** X16. After training from the empty store, however it ends, every
    information set of the store is as [new_info_set] built it, with its
    key, its actions, its cumulative strategy and, when it has actions,
    its strategy; of its regret only the entry of the first action can
    differ. *)
Theorem iterate_leaves_strategies (fuel : nat) (h0 : H)
    (epochs n_players : nat) (s' : CFR) (r : result unit) :
  iterate observe fuel h0 epochs n_players CFR_init = Some (r, s') ->
  forall ref o,
    objects s' !! ref = Some o ->
    exists (h : H) o_init,
      new_info_set h = Ok o_init /\
      key o = key o_init /\ actions o = actions o_init /\
      cumulative_strategy o = cumulative_strategy o_init /\
      forall a rest,
        actions o_init = a :: rest ->
        strategy o = strategy o_init /\
        forall b, b <> a ->
                  dict_get (regret o) b = dict_get (regret o_init) b.
Proof.
  intros Hrun ref o Ho.
  assert (Hinit : all_pristine CFR_init) by (intros ? ? ?; discriminate).
  destruct (triple_iterate observe all_pristine fuel h0 epochs n_players
              (triple_walk_tree_pristine fuel) _ _ _ Hinit Hrun)
    as [Hs' _].
  destruct (Hs' ref o Ho) as (h & o_init & Hnew & (Hk & Ha & Hc) & Hfirst).
  exists h, o_init. split; [exact Hnew|].
  split; [exact Hk|]. split; [exact Ha|]. split; [exact Hc|exact Hfirst].
Qed.
End Touched.

(** * The average strategy over the action set *)

Lemma dict_set_keys_in (d : dict) (a : Action) (x : Q) :
  In a (dict_keys d) -> dict_keys (dict_set d a x) = dict_keys d.
Proof.
  induction d as [|[k y] d IH]; intros Hin; [destruct Hin|].
  simpl. destruct (String.eqb k a) eqn:E; [reflexivity|].
  simpl. f_equal. apply IH. destruct Hin as [Hk|Hin]; [|exact Hin].
  simpl in Hk. apply String.eqb_neq in E. contradiction.
Qed.

Lemma dict_set_keys_nodup (d : dict) (a : Action) (x : Q) :
  NoDup (dict_keys d) -> NoDup (dict_keys (dict_set d a x)).
Proof.
  intros Hnd. destruct (decide (a ∈ dict_keys d)) as [Hin|Hnin].
  - rewrite dict_set_keys_in by (apply list_elem_of_In, Hin). exact Hnd.
  - rewrite dict_set_fresh by (rewrite <- list_elem_of_In; exact Hnin).
    unfold dict_keys. rewrite map_app. apply NoDup_app.
    split; [exact Hnd|]. split; [|apply NoDup_singleton].
    intros b Hb Hb'. apply list_elem_of_singleton in Hb'. simpl in Hb'.
    subst b. contradiction.
Qed.

Lemma dict_set_entries (P : Action * Q -> Prop) (d : dict) (a : Action)
    (x : Q) :
  P (a, x) -> Forall P d -> Forall P (dict_set d a x).
Proof.
  intros Hax. induction d as [|[k y] d IH]; intros Hd; simpl.
  - constructor; [exact Hax|constructor].
  - inversion Hd as [|? ? Hky Hrest]; subst.
    destruct (String.eqb k a) eqn:E.
    + apply String.eqb_eq in E. subst k. constructor; assumption.
    + constructor; [exact Hky|apply IH, Hrest].
Qed.

Section KeysOfDict.
Variable f : Action -> Q.

Let step (acc : dict) (a : Action) : dict := dict_set acc a (f a).

Lemma fold_keys_nodup_keys (xs : list Action) (acc : dict) :
  NoDup (dict_keys acc) -> NoDup (dict_keys (fold_left step xs acc)).
Proof.
  revert acc. induction xs as [|x xs IH]; intros acc Hacc; simpl.
  - exact Hacc.
  - apply IH, dict_set_keys_nodup, Hacc.
Qed.

Lemma fold_keys_entries (xs : list Action) (acc : dict) :
  Forall (fun kv => snd kv = f (fst kv)) acc ->
  Forall (fun kv => snd kv = f (fst kv)) (fold_left step xs acc).
Proof.
  revert acc. induction xs as [|x xs IH]; intros acc Hacc; simpl.
  - exact Hacc.
  - apply IH, dict_set_entries; [reflexivity|exact Hacc].
Qed.

Lemma entries_as_map (d : dict) :
  Forall (fun kv => snd kv = f (fst kv)) d ->
  d = map (fun a => (a, f a)) (dict_keys d).
Proof.
  induction 1 as [|[k y] d Hky _ IH]; simpl; [reflexivity|].
  simpl in Hky. subst y. f_equal. exact IH.
Qed.

Lemma dict_of_keys_as_map (xs : list Action) :
  dict_of_keys f xs
  = map (fun a => (a, f a)) (dict_keys (dict_of_keys f xs)).
Proof. apply entries_as_map, fold_keys_entries. constructor. Qed.

Lemma dict_of_keys_nodup_keys (xs : list Action) :
  NoDup (dict_keys (dict_of_keys f xs)).
Proof. apply fold_keys_nodup_keys. constructor. Qed.

Lemma dict_of_keys_In (xs : list Action) (a : Action) :
  In a (dict_keys (dict_of_keys f xs)) <-> In a xs.
Proof.
  rewrite <- dict_get_keys. unfold dict_of_keys. rewrite fold_keys_get.
  destruct (decide (a ∈ xs)) as [Hin|Hnin].
  - split; [intros _; apply list_elem_of_In, Hin|eauto].
  - split; [intros [x Hx]; discriminate|].
    intros Hin. apply list_elem_of_In in Hin. contradiction.
Qed.
End KeysOfDict.

Lemma average_strategy_keys (I : InfoSet) :
  dict_keys (average_strategy I)
  = dict_keys (dict_of_keys
                 (fun a => dict_get_default (cumulative_strategy I) a 0)
                 (actions I)).
Proof.
  unfold average_strategy. cbn zeta.
  destruct (py_gt _ 0); apply dict_map_keys.
Qed.

Lemma average_strategy_refines_keys (I : InfoSet) :
  dict_eq (average_strategy I)
          (avg_strategy (dict_keys (average_strategy I))
                        (cumulative_strategy I)).
Proof.
  rewrite average_strategy_keys.
  unfold average_strategy, avg_strategy, dict_eq. cbn zeta.
  rewrite <- dict_of_keys_as_map.
  set (mass := dict_of_keys _ (actions I)).
  assert (Hsum : py_sum (dict_values mass) == total (map snd mass))
    by apply py_sum_total.
  set (Sc := py_sum _) in *.
  destruct (py_gt Sc 0) eqn:Hgt; destruct (Qlt_le_dec 0 _) as [Hlt|Hle].
  - apply Forall2_map_pointwise. intros [a r] _. simpl. split; [reflexivity|].
    rewrite Hsum. reflexivity.
  - apply py_gt_spec in Hgt. rewrite Hsum in Hgt.
    exfalso. apply (Qlt_not_le _ _ Hgt Hle).
  - apply py_gt_false in Hgt. rewrite Hsum in Hgt.
    exfalso. apply (Qlt_not_le _ _ Hlt Hgt).
  - apply Forall2_map_pointwise. intros [a r] _. simpl. split; [reflexivity|].
    unfold py_len, dict_keys. rewrite length_map. reflexivity.
Qed.

(** The claim that the average strategy is a distribution for every
    information set fails on the information set without actions, where
    the result is empty and sums to 0, and on an information set with a
    negative cumulative entry, where the result has a negative value. *)
Lemma get_average_strategy_not_a_distribution :
  get_average_strategy empty_info_set = Ok [] /\
  ~ py_sum (dict_values []) == 1 /\
  get_average_strategy negative_info_set
  = Ok [("a"%string, -1 # 2); ("b"%string, 3 # 2)] /\
  ~ 0 <= -1 # 2.
Proof.
  split; [reflexivity|]. split; [discriminate|].
  split; [vm_compute; reflexivity|].
  intros Hle. apply (Qle_not_lt _ _ Hle). reflexivity.
Qed.

(** C6, amended. For an information set with at least one action,
    [get_average_strategy] returns normally a dictionary with one entry
    per action of the action set (each action once, whatever the list
    repeats) whose values sum to 1: the value under [a] is
    [cumulative_strategy[a]] divided by the sum of the accumulator over
    the action set when that sum is positive, and the uniform value
    otherwise.  When no entry of the accumulator is negative (the all-zero
    one included), every value is non-negative. *)
Theorem get_average_strategy_distribution (I : InfoSet) :
  actions I <> [] ->
  exists avg,
    get_average_strategy I = Ok avg /\
    NoDup (dict_keys avg) /\
    (forall a, In a (dict_keys avg) <-> In a (actions I)) /\
    dict_eq avg (avg_strategy (dict_keys avg) (cumulative_strategy I)) /\
    py_sum (dict_values avg) == 1 /\
    (Forall (fun x => 0 <= x) (dict_values (cumulative_strategy I)) ->
     Forall (fun x => 0 <= x) (dict_values avg)).
Proof.
  intros Hne. exists (average_strategy I).
  split; [apply get_average_strategy_ok|].
  split; [rewrite average_strategy_keys; apply dict_of_keys_nodup_keys|].
  split.
  { intros a. rewrite average_strategy_keys. apply dict_of_keys_In. }
  split; [apply average_strategy_refines_keys|].
  split; [apply average_strategy_sum, Hne|].
  apply average_strategy_nonneg, Hne.
Qed.

(** * Instances of the further conditional statements *)

Lemma calculate_strategy_scale_invariant_witness :
  0 < 2 /\
  exists I1 I2,
    calculate_strategy sample_info_set = Ok I1 /\
    calculate_strategy
      (set_regret sample_info_set
                  (dict_map (Qmult 2) (regret sample_info_set))) = Ok I2 /\
    dict_eq (strategy I2) (strategy I1).
Proof.
  split; [reflexivity|].
  apply (calculate_strategy_scale_invariant sample_info_set 2). reflexivity.
Defined.


Lemma to_dict_load_dict_witness :
  exists I',
    load_dict sample_info_set sample_saved = (Ok tt, I') /\
    key I' = "S"%string /\
    to_dict I' = {| d_key := Some "S"%string;
                    d_regret := d_regret sample_saved;
                    d_average_strategy := d_average_strategy sample_saved |}.
Proof.
  destruct (to_dict_load_dict sample_info_set sample_saved
              [("a"%string, 5); ("b"%string, 7)]
              [("a"%string, 1); ("b"%string, 0)] eq_refl eq_refl)
    as (I' & Hrun & Hkey & _ & _ & Hsave).
  exists I'. split; [exact Hrun|]. split; [exact Hkey|exact Hsave].
Defined.

Lemma get_average_strategy_uniform_witness :
  Forall (fun x => x <= 0) (dict_values (cumulative_strategy fresh_P1)) /\
  exists avg,
    get_average_strategy fresh_P1 = Ok avg /\
    Forall (fun x => x = 1 / py_len (dict_keys avg)) (dict_values avg).
Proof.
  assert (Hnp : Forall (fun x => x <= 0)
                  (dict_values (cumulative_strategy fresh_P1))).
  { repeat (constructor; [apply Qle_refl|]). constructor. }
  split; [exact Hnp|].
  destruct (get_average_strategy_uniform fresh_P1 Hnp)
    as (avg & Hrun & Hunif & _).
  exists avg. split; assumption.
Defined.

Lemma walk_tree_frames_witness :
  walk_tree 3 (AHistory game_own_node) 1%Z 1 1 store_P1
  = Some (Raise TypeError,
          mkCFR {["P1"%string := 0%nat]}
                [set_regret fresh_P1 [("x"%string, 1); ("y"%string, 0)]]) /\
  exists o',
    [set_regret fresh_P1 [("x"%string, 1); ("y"%string, 0)]] !! 0%nat
    = Some o' /\
    cumulative_strategy o' = cumulative_strategy fresh_P1.
Proof.
  assert (Hrun : walk_tree 3 (AHistory game_own_node) 1%Z 1 1 store_P1
                 = Some (Raise TypeError,
                         mkCFR {["P1"%string := 0%nat]}
                               [set_regret fresh_P1
                                  [("x"%string, 1); ("y"%string, 0)]]))
    by (vm_compute; reflexivity).
  split; [exact Hrun|].
  destruct (walk_tree_frames _ _ _ _ _ _ _ _ Hrun) as [_ Hobjs].
  destruct (Hobjs 0%nat fresh_P1 eq_refl) as (o' & Ho' & _ & _ & Hcum).
  exists o'. split; [exact Ho'|exact Hcum].
Defined.

Lemma walk_tree_learns_nothing_witness :
  exists s',
    walk_tree 3 (AHistory game_one_node) 1%Z 1 1 CFR_init
    = Some (Ok 0, s') /\
    all_zero_cum s' /\ 0 == 0.
Proof.
  assert (Hrun : walk_tree 3 (AHistory game_one_node) 1%Z 1 1 CFR_init
                 = Some (Ok 0, mkCFR {["P2"%string := 0%nat]} [fresh_P2]))
    by (vm_compute; reflexivity).
  assert (Hinit : all_zero_cum CFR_init) by (intros ref o Ho; discriminate).
  destruct (walk_tree_learns_nothing _ _ _ _ _ _ _ _
              tree_new_info_set_zero Hinit Hrun) as (Hzero & Hval & _).
  eexists. split; [exact Hrun|]. split; [exact Hzero|].
  apply (Hval game_one_node 0 eq_refl eq_refl eq_refl).
Defined.

Lemma walk_tree_other_player_witness :
  player game_player_0 = 0%Z /\
  walk_tree 1 (AHistory game_player_0) 0%Z 1 1 CFR_init
  = Some (Raise (KeyError "x"), mkCFR {["P0"%string := 0%nat]} [fresh_P0]).
Proof.
  split; [reflexivity|].
  apply (walk_tree_other_player 0 game_player_0 0%Z 1 1 CFR_init
           (mkCFR {["P0"%string := 0%nat]} [fresh_P0]) 0%nat fresh_P0
           "x"%string ["y"%string]);
    try reflexivity; discriminate.
Defined.

Lemma walk_tree_own_node_witness :
  exists s' ref o,
    walk_tree 1 (AHistory game_no_action) 1%Z 1 1 CFR_init
    = Some (Ok 0, s') /\
    info_sets s' !! info_set_key game_no_action = Some ref /\
    objects s' !! ref = Some o /\
    actions o = [].
Proof.
  assert (Hrun : walk_tree 1 (AHistory game_no_action) 1%Z 1 1 CFR_init
                 = Some (Ok 0, mkCFR {["E"%string := 0%nat]}
                                     [mkInfoSet "E" [] [] [] []]))
    by (vm_compute; reflexivity).
  destruct (walk_tree_own_node _ _ _ _ _ _ _ _ Hrun eq_refl eq_refl)
    as (ref & o & Hkey & Ho & Hacts).
  eexists _, ref, o. split; [exact Hrun|]. split; [exact Hkey|].
  split; [exact Ho|exact Hacts].
Defined.

Lemma iterate_keeps_store_witness :
  exists s',
    iterate quiet 3 game_two_levels 1 2 store_P1
    = Some (Raise TypeError, s') /\
    bindings_kept store_P1 s' /\ frames store_P1 s'.
Proof.
  assert (Hrun : iterate quiet 3 game_two_levels 1 2 store_P1
                 = Some (Raise TypeError,
                         mkCFR (<["P2"%string := 1%nat]>
                                  {["P1"%string := 0%nat]})
                               [fresh_P1; fresh_P2]))
    by (vm_compute; reflexivity).
  destruct (iterate_keeps_store quiet _ _ _ _ _ _ _ Hrun)
    as (Hkept & _ & Hframes & _).
  eexists. split; [exact Hrun|]. split; [exact Hkept|exact Hframes].
Defined.

Lemma iterate_chance_root_witness :
  is_chance game_chance = true /\
  iterate quiet 2 game_chance 1 2 CFR_init
  = Some (Raise AttributeError, CFR_init).
Proof.
  split; [reflexivity|].
  apply (iterate_chance_root quiet 0 game_chance 1 2 CFR_init);
    [reflexivity|reflexivity|lia|lia].
Defined.

Lemma iterate_returns_only_for_player_2_witness :
  exists s',
    iterate quiet 2 CallRoot 1 2 CFR_init = Some (Ok tt, s') /\
    player CallRoot = 2%Z.
Proof.
  assert (Hrun : iterate quiet 2 CallRoot 1 2 CFR_init
                 = Some (Ok tt,
                         mkCFR {["call"%string := 0%nat]}
                               [{| key := "call";
                                   actions := ["h"; "t"]%string;
                                   strategy := [("h"%string, 1 # 2);
                                                ("t"%string, 1 # 2)];
                                   regret := [("h"%string, 0);
                                              ("t"%string, 0)];
                                   cumulative_strategy :=
                                     [("h"%string, 0); ("t"%string, 0)] |}]))
    by (vm_compute; reflexivity).
  assert (Hnew : forall (h : call_game) o,
             new_info_set h = Ok o -> actions o <> []).
  { intros h o Ho. vm_compute in Ho. injection Ho as <-. discriminate. }
  destruct (iterate_returns_only_for_player_2 quiet 2 CallRoot 1 2 _ tt
              Hnew ltac:(lia) ltac:(lia) Hrun)
    as [Hterm|(_ & _ & Hplayer)]; [discriminate|].
  eexists. split; [exact Hrun|exact Hplayer].
Defined.

Lemma walk_tree_changes_first_regret_only_witness :
  rtc (@step tree tree_history) CFR_init store_P1 /\
  exists r s' o',
    walk_tree 3 (AHistory game_own_node) 1%Z 1 1 store_P1 = Some (r, s') /\
    objects s' !! 0%nat = Some o' /\
    strategy o' = strategy fresh_P1 /\
    dict_get (regret o') "y" = dict_get (regret fresh_P1) "y".
Proof.
  assert (Hbuilt : rtc (@step tree tree_history) CFR_init store_P1).
  { apply rtc_once.
    apply (step_lookup game_own_node CFR_init (Ok 0%nat) store_P1).
    vm_compute. reflexivity. }
  split; [exact Hbuilt|].
  destruct (walk_tree 3 (AHistory game_own_node) 1%Z 1 1 store_P1)
    as [[r s']|] eqn:Hrun; [|vm_compute in Hrun; discriminate].
  destruct (walk_tree_changes_first_regret_only _ _ _ _ _ _ _ _ Hbuilt Hrun
              0%nat fresh_P1 "x"%string ["y"%string] eq_refl eq_refl)
    as (o' & Ho' & Hst & Hreg).
  exists r, s', o'. split; [reflexivity|]. split; [exact Ho'|].
  split; [exact Hst|]. apply Hreg. discriminate.
Defined.

Lemma iterate_leaves_strategies_witness :
  exists r s',
    iterate quiet 3 game_two_levels 1 2 CFR_init = Some (r, s') /\
    forall ref o,
      objects s' !! ref = Some o ->
      exists (h : tree) o_init,
        new_info_set h = Ok o_init /\ key o = key o_init /\
        cumulative_strategy o = cumulative_strategy o_init.
Proof.
  destruct (iterate quiet 3 game_two_levels 1 2 CFR_init)
    as [[r s']|] eqn:Hrun; [|vm_compute in Hrun; discriminate].
  exists r, s'. split; [reflexivity|]. intros ref o Ho.
  destruct (iterate_leaves_strategies quiet _ _ _ _ _ _ Hrun ref o Ho)
    as (h & o_init & Hnew & Hk & _ & Hc & _).
  exists h, o_init. split; [exact Hnew|]. split; [exact Hk|exact Hc].
Defined.

Lemma get_average_strategy_distribution_witness :
  actions sample_info_set <> [] /\
  exists avg,
    get_average_strategy sample_info_set = Ok avg /\
    dict_eq avg (avg_strategy (dict_keys avg)
                              (cumulative_strategy sample_info_set)) /\
    py_sum (dict_values avg) == 1.
Proof.
  split; [discriminate|].
  destruct (get_average_strategy_distribution sample_info_set)
    as (avg & Hrun & _ & _ & Hrule & Hsum & _); [discriminate|].
  exists avg. split; [exact Hrun|]. split; [exact Hrule|exact Hsum].
Defined.
